(** * NotionSketch: the build-log error filter [.log_parser.py]

    A shallow embedding of [parse_logs] and of the fragment of Python's
    [re] module its pattern uses, followed by the properties of the
    extractor: deduplication, totality, and the exact shape of the lines
    the pattern accepts. *)

From Stdlib Require Import NArith String Ascii.
From stdpp Require Import gmap list.

Local Open Scope N_scope.

(** ** Text

    A Python [str] is a sequence of Unicode code points. *)

Definition char := N.
Definition text := list char.

Definition LF : char := 10.
Definition CR : char := 13.
Definition COLON : char := 58.

(** An ASCII literal as a [text]. *)
Fixpoint str (s : string) : text :=
  match s with
  | EmptyString => []
  | String a s' => N_of_ascii a :: str s'
  end.

(** [str.isspace] on one code point, which is also the class [\s] of a
    [str] pattern: the code points for which CPython's
    [Py_UNICODE_ISSPACE] holds. *)
Definition isspace (c : char) : bool :=
  ((9 <=? c) && (c <=? 13)) || ((28 <=? c) && (c <=? 32))
  || (c =? 133) || (c =? 160) || (c =? 5760)
  || ((8192 <=? c) && (c <=? 8202))
  || (c =? 8232) || (c =? 8233) || (c =? 8239) || (c =? 8287)
  || (c =? 12288).

(** The zero digit of every decimal-digit block of the Unicode database
    (general category Nd; the table of Unicode 14.0.0, which CPython 3.11
    carries). Every block holds ten consecutive code points. *)
Definition decimal_zeros : list char :=
  [48; 1632; 1776; 1984; 2406; 2534; 2662; 2790; 2918; 3046; 3174; 3302;
   3430; 3558; 3664; 3792; 3872; 4160; 4240; 6112; 6160; 6470; 6608; 6784;
   6800; 6992; 7088; 7232; 7248; 42528; 43216; 43264; 43472; 43504; 43600;
   44016; 65296; 66720; 68912; 69734; 69872; 69942; 70096; 70384; 70736;
   70864; 71248; 71360; 71472; 71904; 72016; 72784; 73040; 73120; 92768;
   92864; 93008; 120782; 120792; 120802; 120812; 120822; 123200; 123632;
   125264; 130032].

(** [str.isdecimal] on one code point, which is the class [\d] of a [str]
    pattern ([Py_UNICODE_ISDECIMAL]). *)
Definition isdecimal (c : char) : bool :=
  existsb (fun z => (z <=? c) && (c <? z + 10)) decimal_zeros.

(** [str.strip()] with no argument: leading and trailing whitespace is
    removed, the inside is kept. *)
Fixpoint lstrip (s : text) : text :=
  match s with
  | c :: s' => if isspace c then lstrip s' else s
  | [] => []
  end.

Fixpoint rstrip (s : text) : text :=
  match s with
  | c :: s' =>
      match rstrip s' with
      | [] => if isspace c then [] else [c]
      | r => c :: r
      end
  | [] => []
  end.

Definition strip (s : text) : text := rstrip (lstrip s).

(** ** Results and exceptions *)

Inductive exn :=
| IndexError   (* [match.group] on a group the pattern does not have *)
| OutOfFuel.   (* the scan of the model ran out of steps *)

Inductive result (A : Type) :=
| Ok (a : A)
| Raise (e : exn).
Arguments Ok {A} a.
Arguments Raise {A} e.

#[global] Instance result_bind : MBind result := fun A B f r =>
  match r with
  | Ok a => f a
  | Raise e => Raise e
  end.

(** ** The regular-expression fragment of the pattern

    Character classes [[^c]], [\d], [\s] and [.] (without DOTALL, every
    character but the line feed). *)
Inductive cclass :=
| NotChar (c : char)
| Digit
| Space
| Dot.

Definition cclass_in (cl : cclass) (c : char) : bool :=
  match cl with
  | NotChar x => negb (c =? x)
  | Digit => isdecimal c
  | Space => isspace c
  | Dot => negb (c =? LF)
  end.

(** The pieces a pattern is a sequence of: [^] and [$] (under
    [re.MULTILINE]), a literal, [cl+] and the capturing group [(cl+)]. *)
Inductive item :=
| Bol
| Eol
| Lit (l : text)
| Plus (cl : cclass)
| Group (cl : cclass).

(** A match in progress: the groups captured so far, whether the position
    is at the start of a line (the start of the text, or just after a line
    feed), and the text still ahead. *)
Definition mstate : Type := list text * bool * text.

(** A literal, character by character. *)
Fixpoint literal (l : text) (bol : bool) (s : text) : option (bool * text) :=
  match l with
  | [] => Some (bol, s)
  | c :: l' =>
      match s with
      | d :: s' => if d =? c then literal l' (c =? LF) s' else None
      | [] => None
      end
  end.

(** [cl+], greedy: one character of the class at least; the longer
    repetition is tried first, and the engine steps back one character at
    a time while the rest of the pattern [k] fails. *)
Fixpoint greedy (cl : cclass) (k : text -> bool -> text -> option mstate)
    (taken : text) (s : text) : option mstate :=
  match s with
  | c :: s' =>
      if cclass_in cl c then
        match greedy cl k (taken ++ [c]) s' with
        | Some m => Some m
        | None => k (taken ++ [c]) (c =? LF) s'
        end
      else None
  | [] => None
  end.

(** The backtracking matcher: the first way, in the engine's order of
    preference, in which the items match at the current position. *)
Fixpoint match_items (p : list item) (groups : list text) (bol : bool)
    (s : text) : option mstate :=
  match p with
  | [] => Some (groups, bol, s)
  | Bol :: p' => if bol then match_items p' groups bol s else None
  | Eol :: p' =>
      match s with
      | [] => match_items p' groups bol s
      | c :: _ => if c =? LF then match_items p' groups bol s else None
      end
  | Lit l :: p' =>
      match literal l bol s with
      | Some (bol', s') => match_items p' groups bol' s'
      | None => None
      end
  | Plus cl :: p' =>
      greedy cl (fun _ bol' s' => match_items p' groups bol' s') [] s
  | Group cl :: p' =>
      greedy cl (fun t bol' s' => match_items p' (groups ++ [t]) bol' s') [] s
  end.

(** [re.search] from the current position: the leftmost position at which
    the pattern matches. *)
Fixpoint search (p : list item) (bol : bool) (s : text) : option mstate :=
  match match_items p [] bol s with
  | Some m => Some m
  | None =>
      match s with
      | c :: s' => search p (c =? LF) s'
      | [] => None
      end
  end.

(** [re.finditer]: the matches from left to right, each search starting
    where the match before it ended. A match object is the list of its
    groups. Every match of the pattern below is non-empty, so the rule of
    [finditer] for empty matches is not needed; [fuel] bounds the number
    of searches. *)
Fixpoint finditer_from (fuel : nat) (p : list item) (bol : bool) (s : text)
    : result (list (list text)) :=
  match fuel with
  | O => Raise OutOfFuel
  | S fuel' =>
      match search p bol s with
      | None => Ok []
      | Some (groups, bol', s') =>
          ms ← finditer_from fuel' p bol' s'; Ok (groups :: ms)
      end
  end.

Definition finditer (p : list item) (s : text) : result (list (list text)) :=
  finditer_from (S (length s)) p true s.

(** [match.group(i)] for a group number [i >= 1], the only use
    [parse_logs] makes of it (group 0, the whole match, is not kept in the
    match object of the model). *)
Definition group (m : list text) (i : nat) : result text :=
  match i with
  | O => Raise IndexError
  | S j =>
      match nth_error m j with
      | Some g => Ok g
      | None => Raise IndexError
      end
  end.

(** ** [parse_logs] *)

(** [r"^([^:]+):(\d+):(\d+):\s+error:\s+(.+)$"] *)
Definition pattern : list item :=
  [Bol; Group (NotChar COLON); Lit [COLON]; Group Digit; Lit [COLON];
   Group Digit; Lit [COLON]; Plus Space; Lit (str "error:"); Plus Space;
   Group Dot; Eol].

(** The deduplication key [(file_path, line, msg)], which is also what the
    three [print] calls of a new key show. *)
Definition key : Type := text * text * text.

Definition key_path (k : key) : text := fst (fst k).
Definition key_line (k : key) : text := snd (fst k).
Definition key_msg (k : key) : text := snd k.

(** The variables of the loop: the set [seen], the flag [errors_found],
    and the reports printed so far (one entry per block of three lines). *)
Record state := {
  seen : gset key;
  errors_found : bool;
  printed : list key
}.

Definition initial : state :=
  {| seen := ∅; errors_found := false; printed := [] |}.

(** The key of one match, as the loop body builds it. *)
Definition key_of (m : list text) : result key :=
  g1 ← group m 1;
  let file_path := strip g1 in
  line ← group m 2;
  col ← group m 3;
  g4 ← group m 4;
  let msg := strip g4 in
  Ok (file_path, line, msg).

(** One iteration of [for match in matches]. *)
Definition loop_body (st : state) (m : list text) : result state :=
  k ← key_of m;
  if decide (k ∈ seen st) then Ok st
  else Ok {| seen := {[k]} ∪ seen st;
             errors_found := true;
             printed := printed st ++ [k] |}.

Fixpoint for_each (st : state) (ms : list (list text)) : result state :=
  match ms with
  | [] => Ok st
  | m :: ms' => st1 ← loop_body st m; for_each st1 ms'
  end.

(** [parse_logs] on the text read from standard input: the reports in the
    order they are printed, and [errors_found]. *)
Definition parse_logs (log_content : text) : result (list key * bool) :=
  matches ← finditer pattern log_content;
  st ← for_each initial matches;
  Ok (printed st, errors_found st).

(** The arguments of the three [print] calls for a new key, and of the
    last [print] call. *)
Definition report_lines (k : key) : list text :=
  let '(file_path, line, msg) := k in
  [ [128196; 32] ++ file_path ++ [COLON] ++ line;
    [10060; 32] ++ msg;
    repeat 45 40 ].

Definition no_errors_line : text :=
  [9989; 32] ++ str "No compilation errors found in the input.".

(** The arguments of the [print] calls of a run, in order (an argument
    may hold line feeds of its own). *)
Definition stdout (log_content : text) : result (list text) :=
  r ← parse_logs log_content;
  let reports : list key := r.1 in
  let found : bool := r.2 in
  Ok (concat (map report_lines reports)
      ++ (if found then [] else [no_errors_line])).

(** The text the calls write: [print] ends every argument with a line
    feed. *)
Definition written (calls : list text) : text :=
  concat (map (λ l, l ++ [LF]) calls).

Definition output (log_content : text) : result text :=
  calls ← stdout log_content; Ok (written calls).

(** ** The grammar of the pattern, declaratively

    [bol_after t bol]: whether the position is at the start of a line once
    [t] has been consumed from a position whose flag was [bol]. *)
Definition bol_after (t : text) (bol : bool) : bool :=
  match last t with
  | Some c => c =? LF
  | None => bol
  end.

(** A non-empty run of characters of one class. *)
Definition run (cl : cclass) (t : text) : Prop :=
  t ≠ [] ∧ Forall (λ c, cclass_in cl c = true) t.

(** [shape p bol s gs b' s']: the text [s], read from a position with flag
    [bol], starts with some instance of the items [p] whose groups are [gs],
    and [s'] (with flag [b']) is what follows that instance. This is the
    meaning of the pattern without the engine's order of preference. *)
Fixpoint shape (p : list item) (bol : bool) (s : text) (gs : list text)
    (b' : bool) (s' : text) : Prop :=
  match p with
  | [] => s = s' ∧ gs = [] ∧ b' = bol
  | Bol :: p' => bol = true ∧ shape p' bol s gs b' s'
  | Eol :: p' => (s = [] ∨ head s = Some LF) ∧ shape p' bol s gs b' s'
  | Lit l :: p' => ∃ r, s = l ++ r ∧ shape p' (bol_after l bol) r gs b' s'
  | Plus cl :: p' =>
      ∃ t r, run cl t ∧ s = t ++ r ∧ shape p' (bol_after t bol) r gs b' s'
  | Group cl :: p' =>
      ∃ t r gs', run cl t ∧ s = t ++ r ∧ gs = t :: gs'
                 ∧ shape p' (bol_after t bol) r gs' b' s'
  end.

(** The scan [parse_logs] runs, from any position of the text. *)
Definition scan (bol : bool) (s : text) : result (list (list text)) :=
  finditer_from (S (length s)) pattern bol s.

(** ** Notions the properties are stated with *)

(** [k] is the key of the match [m]: the stripped path, the line as
    written and the stripped message; the column has no part in it. *)
Definition keyed (m : list text) (k : key) : Prop :=
  ∃ g1 l c g4, m = [g1; l; c; g4] ∧ k = (strip g1, l, strip g4).

(** The distinct keys of a sequence, each at the place of its first
    occurrence. *)
Fixpoint distinct_in_order (ks : list key) : list key :=
  match ks with
  | [] => []
  | k :: ks' => k :: filter (λ k', k' ≠ k) (distinct_in_order ks')
  end.

(** The groups of a match: the path, the line and column numbers and the
    message, each a non-empty run of its class. *)
Definition groups_ok (m : list text) : Prop :=
  ∃ g1 l c g4, m = [g1; l; c; g4]
    ∧ run (NotChar COLON) g1 ∧ run Digit l ∧ run Digit c ∧ run Dot g4.

(** [a] stands before [b] in [l]. *)
Definition precedes (a b : key) (l : list key) : Prop :=
  ∃ l1 l2 l3, l = l1 ++ a :: l2 ++ b :: l3.

(** The parts of a diagnostic written on one line:
    [path:line:col:<ws1>error:<ws2>msg]. *)
Record diag := {
  d_path : text;
  d_line : text;
  d_col : text;
  d_ws1 : text;
  d_ws2 : text;
  d_msg : text
}.

Definition diag_text (d : diag) : text :=
  d_path d ++ [COLON] ++ d_line d ++ [COLON] ++ d_col d ++ [COLON]
  ++ d_ws1 d ++ str "error:" ++ d_ws2 d ++ d_msg d.

Definition diag_key (d : diag) : key :=
  (strip (d_path d), d_line d, strip (d_msg d)).

(** A non-empty text all of whose characters satisfy [f]. *)
Definition all_of (f : char → bool) (t : text) : bool :=
  match t with
  | [] => false
  | _ => forallb f t
  end.

Definition nonempty (t : text) : bool :=
  match t with
  | [] => false
  | _ => true
  end.

Definition not_lf (c : char) : bool := negb (c =? LF).

(** Whitespace that stays on the line (possibly none). *)
Definition blanks (t : text) : bool :=
  forallb (λ c, isspace c && not_lf c) t.

(** The parts are those of one line of the grammar, the two runs of
    whitespace apart, which may be empty here: a path without colon, two
    numbers, and a message that starts with a character that is not
    whitespace; no part holds a line feed. *)
Definition line_form (d : diag) : bool :=
  all_of (λ c, negb (c =? COLON) && not_lf c) (d_path d)
  && all_of isdecimal (d_line d)
  && all_of isdecimal (d_col d)
  && blanks (d_ws1 d)
  && blanks (d_ws2 d)
  && all_of not_lf (d_msg d)
  && match d_msg d with
     | c :: _ => negb (isspace c)
     | [] => false
     end.

(** A line of that form with whitespace on both sides of [error:]. *)
Definition well_formed (d : diag) : bool :=
  line_form d && nonempty (d_ws1 d) && nonempty (d_ws2 d).

(** [s] starts with [p]. *)
Fixpoint starts_with (p s : text) : bool :=
  match p, s with
  | [], _ => true
  | a :: p', b :: s' => (a =? b) && starts_with p' s'
  | _ :: _, [] => false
  end.

(** A line of a log: a diagnostic with [error:], or a line
    [path:line:col:tail] of the same form with something else behind the
    position. *)
Inductive log_line :=
| ErrorLine (d : diag)
| OtherLine (path line col tail : text).

Definition line_text (ln : log_line) : text :=
  match ln with
  | ErrorLine d => diag_text d
  | OtherLine path line col tail =>
      path ++ [COLON] ++ line ++ [COLON] ++ col ++ [COLON] ++ tail
  end.

(** An [ErrorLine] is well formed; the tail of an [OtherLine] holds a
    character that is not whitespace, and what it holds from there on does
    not start with [error:]. *)
Definition line_ok (ln : log_line) : bool :=
  match ln with
  | ErrorLine d => well_formed d
  | OtherLine path line col tail =>
      all_of (λ c, negb (c =? COLON) && not_lf c) path
      && all_of isdecimal line
      && all_of isdecimal col
      && forallb not_lf tail
      && nonempty (lstrip tail)
      && negb (starts_with (str "error:") (lstrip tail))
  end.

Definition line_keys (ln : log_line) : list key :=
  match ln with
  | ErrorLine d => [diag_key d]
  | OtherLine _ _ _ _ => []
  end.

(** A log, every line ended by [eol]. *)
Fixpoint log_text (eol : text) (lns : list log_line) : text :=
  match lns with
  | [] => []
  | ln :: lns' => line_text ln ++ eol ++ log_text eol lns'
  end.

(** Every line feed replaced by carriage return, line feed. *)
Fixpoint crlf (s : text) : text :=
  match s with
  | [] => []
  | c :: s' => if c =? LF then CR :: LF :: crlf s' else c :: crlf s'
  end.

(** The number a string of decimal digits denotes (what [int] makes of
    it): each digit counts from the zero of its block. *)
Definition digit_value (c : char) : N :=
  match find (λ z, (z <=? c) && (c <? z + 10)) decimal_zeros with
  | Some z => c - z
  | None => 0
  end.

Definition int_of (t : text) : N :=
  fold_left (λ acc c, 10 * acc + digit_value c) t 0.

(** A diagnostic stands at the head of [s]: a path without colon, the two
    numbers, [error:] between two runs of whitespace, and a message that
    ends where a line ends. The runs of [[^:]] and [\s] may hold line
    feeds. *)
Definition diagnostic_at (s : text) : Prop :=
  ∃ g1 g2 g3 w1 w2 g4 s',
    run (NotChar COLON) g1 ∧ run Digit g2 ∧ run Digit g3
    ∧ run Space w1 ∧ run Space w2 ∧ run Dot g4
    ∧ s = g1 ++ [COLON] ++ g2 ++ [COLON] ++ g3 ++ [COLON]
            ++ w1 ++ str "error:" ++ w2 ++ g4 ++ s'
    ∧ (s' = [] ∨ head s' = Some LF).

(** Neither the first nor the last character is whitespace. *)
Definition stripped (t : text) : Prop :=
  (∀ x, head t = Some x → isspace x = false)
  ∧ (∀ x, last t = Some x → isspace x = false).

(** The number of line feeds of a text, and the number of its lines. *)
Definition line_feeds (s : list char) : nat :=
  length (filter (λ c, c = LF) s).

Definition line_count (s : text) : nat := S (line_feeds s).

(** [p in s]: the text [p] occurs somewhere in [s]. *)
Fixpoint occurs (p s : text) : bool :=
  starts_with p s
  || match s with
     | [] => false
     | _ :: s' => occurs p s'
     end.

(** ** The scenarios of the specification *)

Example scenario1 :
  parse_logs (str "foo.swift:10:5: error: missing semicolon" ++ [LF]
              ++ str "bar.swift:3:1: warning: unused variable" ++ [LF]
              ++ str "foo.swift:10:9: error: missing semicolon" ++ [LF]
              ++ str "baz.swift:7:2: error: type mismatch" ++ [LF])
  = Ok ([(str "foo.swift", str "10", str "missing semicolon");
         (str "baz.swift", str "7", str "type mismatch")], true).
Proof. vm_compute. reflexivity. Qed.

(** * Properties

    ** The engine against the grammar *)

Lemma bol_after_cons c t bol :
  t ≠ [] → bol_after (c :: t) bol = bol_after t (c =? LF).
Proof.
  destruct t as [|d t]; [done|]. intros _.
  unfold bol_after. rewrite last_cons_cons.
  destruct (last (d :: t)) eqn:E; [done|]. by apply last_None in E.
Qed.

Lemma bol_after_nonempty t b1 b2 :
  t ≠ [] → bol_after t b1 = bol_after t b2.
Proof.
  intros Ht. unfold bol_after.
  destruct (last t) eqn:E; [done|]. by apply last_None in E.
Qed.

Lemma bol_after_app t1 t2 bol :
  bol_after (t1 ++ t2) bol = bol_after t2 (bol_after t1 bol).
Proof.
  unfold bol_after. rewrite last_app.
  by destruct (last t2).
Qed.

Lemma literal_spec l bol s b' s' :
  literal l bol s = Some (b', s') ↔ s = l ++ s' ∧ b' = bol_after l bol.
Proof.
  revert bol s. induction l as [|c l IH]; intros bol s; simpl.
  - split; [intros [= <- <-]; done | intros [-> ->]; done].
  - destruct s as [|d s]; [split; [done | intros [? _]; done]|].
    destruct (N.eqb_spec d c) as [->|Hne].
    + rewrite IH. destruct l as [|e l].
      * change (bol_after [c] bol) with (c =? LF).
        change (bol_after [] (c =? LF)) with (c =? LF).
        split; [intros [-> ->]; done | intros [[= ->] ->]; done].
      * rewrite (bol_after_cons c (e :: l)) by done.
        split; [intros [-> ->]; done | intros [[= ->] ->]; done].
    + split; [done | intros [[= ? _] _]; done].
Qed.

Section greedy.
Context (cl : cclass) (k : text → bool → text → option mstate).

(** Whatever [cl+] returns comes from the rest of the pattern on some
    split of the text after a non-empty run of the class. *)
Lemma greedy_sound s : ∀ taken bol m,
  greedy cl k taken s = Some m →
  ∃ t s', run cl t ∧ s = t ++ s'
          ∧ k (taken ++ t) (bol_after t bol) s' = Some m.
Proof.
  induction s as [|c s IH]; intros taken bol m; simpl; [done|].
  destruct (cclass_in cl c) eqn:Hc; [|done].
  destruct (greedy cl k (taken ++ [c]) s) as [m'|] eqn:Hg.
  - intros [= ->].
    destruct (IH _ (c =? LF) _ Hg) as (t & s' & [Hne Hall] & -> & Hk).
    exists (c :: t), s'. split; [split; [done | by constructor]|].
    split; [done|].
    rewrite bol_after_cons by done. by rewrite <- app_assoc in Hk.
  - intros Hk. exists [c], s. repeat split; [done | by repeat constructor | done].
Qed.

(** If the rest of the pattern accepts some split, [cl+] finds a match. *)
Lemma greedy_complete t : ∀ taken bol s',
  run cl t →
  is_Some (k (taken ++ t) (bol_after t bol) s') →
  is_Some (greedy cl k taken (t ++ s')).
Proof.
  induction t as [|c t IH]; intros taken bol s' [Hne Hall] Hk; [done|].
  apply Forall_cons in Hall as [Hc Hall]. simpl. rewrite Hc.
  destruct t as [|d t].
  - simpl in *. by destruct (greedy cl k (taken ++ [c]) s').
  - rewrite (bol_after_cons c (d :: t)) in Hk by done.
    destruct (IH (taken ++ [c]) (c =? LF) s') as [m Hm]; [done | |].
    + by rewrite <- app_assoc.
    + by rewrite Hm.
Qed.

(** The longest run is tried first: when the rest of the pattern accepts
    it, that is the match. *)
Lemma greedy_longest t : ∀ taken bol s' m,
  run cl t →
  (∀ c, head s' = Some c → cclass_in cl c = false) →
  k (taken ++ t) (bol_after t bol) s' = Some m →
  greedy cl k taken (t ++ s') = Some m.
Proof.
  induction t as [|c t IH]; intros taken bol s' m [Hne Hall] Hs' Hk; [done|].
  apply Forall_cons in Hall as [Hc Hall]. simpl. rewrite Hc.
  destruct t as [|d t].
  - simpl in *.
    assert (greedy cl k (taken ++ [c]) s' = None) as ->; [|done].
    destruct s' as [|e s']; [done|]. simpl. by rewrite (Hs' e).
  - rewrite (bol_after_cons c (d :: t)) in Hk by done.
    rewrite (IH (taken ++ [c]) (c =? LF) s' m); [done..| |].
    + done.
    + by rewrite <- app_assoc.
Qed.
End greedy.

(** Every match the engine returns is an instance of the grammar. *)
Lemma match_items_sound p : ∀ g bol s g' b' s',
  match_items p g bol s = Some (g', b', s') →
  ∃ gs, g' = g ++ gs ∧ shape p bol s gs b' s'.
Proof.
  induction p as [|it p IH]; intros g bol s g' b' s' H; simpl in H.
  - injection H as <- <- <-. exists []. by rewrite app_nil_r.
  - destruct it as [| |l|cl|cl]; simpl.
    + destruct bol; [|done].
      destruct (IH _ _ _ _ _ _ H) as (gs & -> & Hs). by exists gs.
    + destruct s as [|c s0].
      * destruct (IH _ _ _ _ _ _ H) as (gs & -> & Hs). exists gs. auto.
      * destruct (N.eqb_spec c LF) as [->|]; [|done].
        destruct (IH _ _ _ _ _ _ H) as (gs & -> & Hs). exists gs. auto.
    + destruct (literal l bol s) as [[b1 s1]|] eqn:E; [|done].
      apply literal_spec in E as [-> ->].
      destruct (IH _ _ _ _ _ _ H) as (gs & -> & Hs). exists gs. eauto.
    + apply (greedy_sound _ _ _ _ bol) in H as (t & r & Hrun & -> & Hk).
      destruct (IH _ _ _ _ _ _ Hk) as (gs & -> & Hs). exists gs.
      split; [done|]. by exists t, r.
    + apply (greedy_sound _ _ _ _ bol) in H as (t & r & Hrun & -> & Hk).
      destruct (IH _ _ _ _ _ _ Hk) as (gs & -> & Hs). exists (t :: gs).
      split; [by rewrite <- app_assoc|]. by exists t, r, gs.
Qed.

(** Wherever the grammar has an instance, the engine finds a match. *)
Lemma match_items_complete p : ∀ g bol s gs b' s',
  shape p bol s gs b' s' → is_Some (match_items p g bol s).
Proof.
  induction p as [|it p IH]; intros g bol s gs b' s' H; simpl in *.
  - done.
  - destruct it as [| |l|cl|cl].
    + destruct H as [-> H]. eauto.
    + destruct H as [Hs H]. destruct s as [|c s0]; [eauto|].
      destruct Hs as [|[= ->]]; [done|]. simpl. eauto.
    + destruct H as (r & -> & H).
      assert (literal l bol (l ++ r) = Some (bol_after l bol, r)) as ->
        by by apply literal_spec.
      eauto.
    + destruct H as (t & r & Hrun & -> & H).
      apply (greedy_complete _ _ _ _ bol); [done|]. simpl. eauto.
    + destruct H as (t & r & gs' & Hrun & -> & -> & H).
      apply (greedy_complete _ _ _ _ bol); [done|]. simpl. eauto.
Qed.

(** [search] returns a match of the pattern at some position of the text. *)
Lemma search_sound p : ∀ s bol m,
  search p bol s = Some m →
  ∃ pre mid, s = pre ++ mid
             ∧ match_items p [] (bol_after pre bol) mid = Some m.
Proof.
  induction s as [|c s IH]; intros bol m; simpl.
  - destruct (match_items p [] bol []) eqn:E; [|done].
    intros [= ->]. by exists [], [].
  - destruct (match_items p [] bol (c :: s)) eqn:E.
    + intros [= ->]. by exists [], (c :: s).
    + intros H. destruct (IH _ _ H) as (pre & mid & -> & Hm).
      exists (c :: pre), mid. split; [done|].
      destruct pre as [|d pre]; [done|].
      by rewrite (bol_after_cons c (d :: pre)).
Qed.

(** Within a line, a pattern that starts with [^] matches at the start
    only. *)
Lemma search_inside_line p s :
  LF ∉ s → search (Bol :: p) false s = None.
Proof.
  induction s as [|c s IH]; [done|].
  intros [Hc Hs]%not_elem_of_cons. simpl.
  destruct (N.eqb_spec c LF); [done | by apply IH].
Qed.

Lemma run_nonempty cl t : run cl t → (0 < length t)%nat.
Proof. intros [Hne _]. destruct t; [done | simpl; lia]. Qed.

Lemma run_Dot_bol t bol : run Dot t → bol_after t bol = false.
Proof.
  intros [Hne Hall]. unfold bol_after.
  destruct (last t) as [c|] eqn:E; [|by apply last_None in E].
  apply last_Some_elem_of in E.
  rewrite Forall_forall in Hall. specialize (Hall _ E). simpl in Hall.
  by destruct (c =? LF).
Qed.

(** What a match of [pattern] looks like. *)
Lemma pattern_inv bol s g b' s' :
  match_items pattern [] bol s = Some (g, b', s') →
  bol = true ∧ b' = false ∧
  ∃ g1 g2 g3 w1 w2 g4,
    g = [g1; g2; g3; g4]
    ∧ run (NotChar COLON) g1 ∧ run Digit g2 ∧ run Digit g3
    ∧ run Space w1 ∧ run Space w2 ∧ run Dot g4
    ∧ s = g1 ++ [COLON] ++ g2 ++ [COLON] ++ g3 ++ [COLON]
            ++ w1 ++ str "error:" ++ w2 ++ g4 ++ s'
    ∧ (s' = [] ∨ head s' = Some LF).
Proof.
  intros H. apply match_items_sound in H as (gs & -> & H).
  destruct H as (-> & g1 & r1 & gs1 & H1 & -> & -> & r2 & -> & g2 & r3 & gs2
    & H2 & -> & -> & r4 & -> & g3 & r5 & gs3 & H3 & -> & -> & r6 & ->
    & w1 & r7 & Hw1 & -> & r8 & -> & w2 & r9 & Hw2 & -> & g4 & r10 & gs4
    & H4 & -> & -> & Hend & -> & -> & ->).
  split; [done|]. split; [by apply run_Dot_bol|].
  by exists g1, g2, g3, w1, w2, g4.
Qed.

(** A successful search consumes text and returns the four groups. *)
Lemma search_progress bol s g b' s' :
  search pattern bol s = Some (g, b', s') →
  (length s' < length s)%nat ∧ length g = 4%nat.
Proof.
  intros (pre & mid & -> & H)%search_sound.
  apply pattern_inv in H
    as (_ & _ & g1 & g2 & g3 & w1 & w2 & g4 & -> & H1%run_nonempty & _ & _
        & _ & _ & _ & -> & _).
  split; [|done]. rewrite !length_app. lia.
Qed.

(** The scan ends within [length s + 1] searches, whatever the text. *)
Lemma finditer_from_total fuel : ∀ bol s,
  (length s < fuel)%nat →
  ∃ ms, finditer_from fuel pattern bol s = Ok ms
        ∧ Forall (λ m, length m = 4%nat) ms.
Proof.
  induction fuel as [|fuel IH]; intros bol s Hlen; [lia|].
  cbn [finditer_from].
  destruct (search pattern bol s) as [[[g b'] s']|] eqn:E.
  - apply search_progress in E as [Hlt Hg].
    destruct (IH b' s') as (ms & -> & Hms); [lia|].
    exists (g :: ms). split; [done | by constructor].
  - by exists [].
Qed.

(** More fuel than that changes nothing. *)
Lemma finditer_from_fuel f1 : ∀ f2 bol s,
  (length s < f1)%nat → (length s < f2)%nat →
  finditer_from f1 pattern bol s = finditer_from f2 pattern bol s.
Proof.
  induction f1 as [|f1 IH]; intros f2 bol s H1 H2; [lia|].
  destruct f2 as [|f2]; [lia|]. cbn [finditer_from].
  destruct (search pattern bol s) as [[[g b'] s']|] eqn:E; [|done].
  apply search_progress in E as [Hlt _].
  by rewrite (IH f2) by lia.
Qed.

(** ** The scan, one step at a time *)

Lemma finditer_from_S fuel p bol s :
  finditer_from (S fuel) p bol s =
  match search p bol s with
  | None => Ok []
  | Some (g, b', s') => ms ← finditer_from fuel p b' s'; Ok (g :: ms)
  end.
Proof. done. Qed.

Lemma search_unfold p bol s :
  search p bol s =
  match match_items p [] bol s with
  | Some m => Some m
  | None =>
      match s with
      | c :: s' => search p (c =? LF) s'
      | [] => None
      end
  end.
Proof. by destruct s. Qed.

Lemma scan_nil bol : scan bol [] = Ok [].
Proof. by destruct bol. Qed.

(** A match at the current position is reported, and the scan goes on
    behind it. *)
Lemma scan_match bol s g b' s' :
  match_items pattern [] bol s = Some (g, b', s') →
  scan bol s = (ms ← scan b' s'; Ok (g :: ms)).
Proof.
  intros H.
  assert (search pattern bol s = Some (g, b', s')) as Hs
    by by rewrite search_unfold, H.
  unfold scan. rewrite finditer_from_S, Hs.
  apply search_progress in Hs as [Hlt _].
  by rewrite (finditer_from_fuel (length s) (S (length s'))) by lia.
Qed.

(** No match at the current position: the scan moves one character on. *)
Lemma scan_skip bol c s :
  match_items pattern [] bol (c :: s) = None →
  scan bol (c :: s) = scan (c =? LF) s.
Proof.
  intros H. unfold scan. rewrite !finditer_from_S, search_unfold, H.
  destruct (search pattern (c =? LF) s) as [[[g b'] s']|] eqn:E; [|done].
  apply search_progress in E as [Hlt _]. simpl length.
  by rewrite (finditer_from_fuel (S (length s)) (length s)) by lia.
Qed.

Lemma scan_line_feed s : scan false (LF :: s) = scan true s.
Proof. by rewrite scan_skip. Qed.

(** A text without line feed holds one line: only its start is tried. *)
Lemma scan_one_line s :
  LF ∉ s → match_items pattern [] true s = None → scan true s = Ok [].
Proof.
  intros Hs H. destruct s as [|c s]; [done|].
  apply not_elem_of_cons in Hs as [Hc Hs].
  rewrite scan_skip by done.
  destruct (N.eqb_spec c LF); [done|].
  pose proof (search_inside_line (tail pattern) s Hs) as E.
  change (Bol :: tail pattern) with pattern in E.
  unfold scan. by rewrite finditer_from_S, E.
Qed.

(** ** The loop *)

Lemma key_of_groups g1 g2 g3 g4 :
  key_of [g1; g2; g3; g4] = Ok (strip g1, g2, strip g4).
Proof. done. Qed.

Lemma groups_of_length (m : list text) :
  length m = 4%nat → ∃ g1 g2 g3 g4, m = [g1; g2; g3; g4].
Proof.
  destruct m as [|g1 [|g2 [|g3 [|g4 [|]]]]]; try done. eauto.
Qed.

Lemma keyed_total (ms : list (list text)) :
  Forall (λ m, length m = 4%nat) ms → ∃ ks, Forall2 keyed ms ks.
Proof.
  induction 1 as [|m ms Hm _ [ks IH]]; [by exists []|].
  apply groups_of_length in Hm as (g1 & g2 & g3 & g4 & ->).
  exists ((strip g1, g2, strip g4) :: ks). constructor; [|done].
  by exists g1, g2, g3, g4.
Qed.

Lemma keyed_key_of m k : keyed m k → key_of m = Ok k.
Proof. by intros (g1 & l & c & g4 & -> & ->). Qed.

Lemma filter_unseen (P : list key) (k : key) (L : list key) :
  filter (λ x, x ∉ P ++ [k]) L = filter (λ x, x ∉ P) (filter (λ x, x ≠ k) L).
Proof.
  rewrite list_filter_filter. apply list_filter_iff. intros x.
  rewrite not_elem_of_app, list_elem_of_singleton. tauto.
Qed.

Lemma filter_seen (P : list key) (k : key) (L : list key) :
  k ∈ P → filter (λ x, x ∉ P) (filter (λ x, x ≠ k) L) = filter (λ x, x ∉ P) L.
Proof.
  intros Hk. rewrite list_filter_filter. apply list_filter_iff.
  intros x. split; [by intros [? _]|]. intros Hx. split; [done|].
  by intros ->.
Qed.

(** The loop prints the keys it has not printed before, in the order of
    their first occurrence, and raises nothing. *)
Lemma for_each_spec ks : ∀ ms st,
  Forall2 keyed ms ks →
  (∀ k, k ∈ seen st ↔ k ∈ printed st) →
  (errors_found st = true ↔ printed st ≠ []) →
  ∃ st', for_each st ms = Ok st'
    ∧ printed st' =
        printed st ++ filter (λ k, k ∉ printed st) (distinct_in_order ks)
    ∧ (errors_found st' = true ↔ printed st' ≠ []).
Proof.
  induction ks as [|k ks IH]; intros ms st Hms Hseen Hfound.
  - apply Forall2_nil_inv_r in Hms as ->. exists st.
    cbn [distinct_in_order]. by rewrite filter_nil, app_nil_r.
  - apply Forall2_cons_inv_r in Hms as (m & ms' & Hk & Hms & ->).
    cbn [for_each]. unfold loop_body. rewrite (keyed_key_of _ _ Hk).
    cbn [mbind result_bind distinct_in_order].
    destruct (decide (k ∈ seen st)) as [Hin|Hin].
    + apply Hseen in Hin. cbn [mbind result_bind].
      destruct (IH ms' st Hms Hseen Hfound) as (st' & -> & Hp & Hf).
      exists st'. split; [done|]. split; [|done]. rewrite Hp.
      rewrite filter_cons_False by (intros ?; done).
      by rewrite filter_seen.
    + rewrite Hseen in Hin. cbn [mbind result_bind].
      destruct (IH ms'
        {| seen := {[k]} ∪ seen st; errors_found := true;
           printed := printed st ++ [k] |} Hms) as (st' & -> & Hp & Hf).
      * intros x. cbn. rewrite elem_of_union, elem_of_singleton, Hseen.
        rewrite elem_of_app, list_elem_of_singleton. tauto.
      * cbn. split; [|done]. intros _. by destruct (printed st).
      * exists st'. split; [done|]. split; [|done].
        cbn in Hp. rewrite Hp, filter_cons_True by done.
        by rewrite filter_unseen, <- app_assoc.
Qed.

Lemma parse_logs_keys s ms ks :
  finditer pattern s = Ok ms → Forall2 keyed ms ks →
  parse_logs s = Ok (distinct_in_order ks, bool_decide (ks ≠ [])).
Proof.
  intros Hms Hks. unfold parse_logs. rewrite Hms. cbn [mbind result_bind].
  destruct (for_each_spec ks ms initial Hks) as (st & -> & Hp & Hf);
    [ intros k; cbn; split; intros H;
        [by apply not_elem_of_empty in H | by apply not_elem_of_nil in H]
    | cbn; split; [done | intros H; by destruct H] |].
  cbn [mbind result_bind]. cbn in Hp.
  assert (∀ l : list key, filter (λ k : key, k ∉ []) l = l) as Hid.
  { induction l as [|x l IHl]; [done|].
    rewrite filter_cons_True by apply not_elem_of_nil. by rewrite IHl. }
  rewrite Hid in Hp. rewrite Hp in *. clear Hms. do 2 f_equal.
  destruct ks as [|k ks]; cbn in *.
  - destruct (errors_found st); [|done]. by destruct Hf as [[] _].
  - by apply Hf.
Qed.

(** ** Keys in order of first occurrence *)

Lemma elem_of_distinct ks k : k ∈ distinct_in_order ks ↔ k ∈ ks.
Proof.
  induction ks as [|x ks IH]; [done|]. cbn [distinct_in_order].
  rewrite !elem_of_cons, list_elem_of_filter, IH.
  destruct (decide (k = x)); tauto.
Qed.

Lemma NoDup_distinct ks : NoDup (distinct_in_order ks).
Proof.
  induction ks as [|x ks IH]; [constructor|]. cbn [distinct_in_order].
  apply NoDup_cons. split; [|by apply NoDup_filter].
  rewrite list_elem_of_filter. by intros [? _].
Qed.

Lemma distinct_order p1 : ∀ a b p2,
  a ≠ b → b ∉ p1 → b ∈ p2 →
  precedes a b (distinct_in_order (p1 ++ a :: p2)).
Proof.
  induction p1 as [|x p1 IH]; intros a b p2 Hab Hb1 Hb2.
  - cbn [app distinct_in_order].
    assert (b ∈ filter (λ k', k' ≠ a) (distinct_in_order p2)) as Hin.
    { rewrite list_elem_of_filter, elem_of_distinct. auto. }
    apply list_elem_of_split in Hin as (l2 & l3 & ->). by exists [], l2, l3.
  - apply not_elem_of_cons in Hb1 as [Hbx Hb1].
    destruct (IH a b p2 Hab Hb1 Hb2) as (l1 & l2 & l3 & E).
    cbn [app distinct_in_order]. destruct (decide (a = x)) as [->|Hax].
    + assert (b ∈ filter (λ k', k' ≠ x)
                (distinct_in_order (p1 ++ x :: p2))) as Hin.
      { rewrite list_elem_of_filter, elem_of_distinct, elem_of_app,
          elem_of_cons. auto. }
      apply list_elem_of_split in Hin as (m2 & m3 & ->). by exists [], m2, m3.
    + rewrite E, filter_app, filter_cons_True, filter_app, filter_cons_True
        by done.
      by eexists (x :: _), _, _.
Qed.

(** * The claims *)

(** C9. [parse_logs] is total: whatever the text, the scan ends, no
    [group] call fails, and the run ends with its reports, its flag and its
    output lines. *)
Theorem parse_logs_total (log_content : text) :
  ∃ reports found lines,
    parse_logs log_content = Ok (reports, found)
    ∧ stdout log_content = Ok lines.
Proof.
  destruct (finditer_from_total (S (length log_content)) true log_content)
    as (ms & Hms & Hlen); [lia|].
  destruct (keyed_total ms Hlen) as [ks Hks].
  pose proof (parse_logs_keys log_content ms ks Hms Hks) as H.
  eexists _, _, _. split; [exact H|]. unfold stdout. by rewrite H.
Qed.

(** The loop by itself: the reports are the distinct keys (stripped path,
    line as written, stripped message) of the matches the scan returns,
    each once, in the order of their first occurrence; the column of a
    match has no part in its key. *)
Theorem reports_are_distinct_keys (log_content : text) :
  ∃ ms ks reports found,
    finditer pattern log_content = Ok ms
    ∧ Forall2 keyed ms ks
    ∧ parse_logs log_content = Ok (reports, found)
    ∧ reports = distinct_in_order ks
    ∧ NoDup reports
    ∧ (∀ k, k ∈ reports ↔ k ∈ ks)
    ∧ (∀ a b p1 p2, ks = p1 ++ a :: p2 → a ≠ b → b ∉ p1 → b ∈ p2 →
         precedes a b reports).
Proof.
  destruct (finditer_from_total (S (length log_content)) true log_content)
    as (ms & Hms & Hlen); [lia|].
  destruct (keyed_total ms Hlen) as [ks Hks].
  exists ms, ks, (distinct_in_order ks), (bool_decide (ks ≠ [])).
  split; [done|]. split; [done|].
  split; [by apply parse_logs_keys with ms|]. split; [done|].
  split; [apply NoDup_distinct|]. split; [intros k; apply elem_of_distinct|].
  intros a b p1 p2 -> Hab Hb1 Hb2. by apply distinct_order.
Qed.

(** The flag is true exactly when a report was printed; when the scan
    returns no match (as for the empty text) there is no report, the flag
    is false, and the only [print] call is the one that says no error was
    found. *)
Theorem no_match_no_errors (log_content : text) :
  (∃ reports found,
     parse_logs log_content = Ok (reports, found)
     ∧ (found = true ↔ reports ≠ [])
     ∧ stdout log_content =
         Ok (concat (map report_lines reports)
             ++ (if found then [] else [no_errors_line])))
  ∧ (finditer pattern log_content = Ok [] →
     parse_logs log_content = Ok ([], false)
     ∧ stdout log_content = Ok [no_errors_line]).
Proof.
  split.
  - destruct (finditer_from_total (S (length log_content)) true log_content)
      as (ms & Hms & Hlen); [lia|].
    destruct (keyed_total ms Hlen) as [ks Hks].
    pose proof (parse_logs_keys log_content ms ks Hms Hks) as H.
    eexists _, _. split; [exact H|]. split.
    + rewrite bool_decide_eq_true. by destruct ks.
    + unfold stdout. by rewrite H.
  - intros Hms.
    pose proof (parse_logs_keys log_content [] [] Hms ltac:(constructor)) as H.
    split; [exact H|]. unfold stdout. by rewrite H.
Qed.

Lemma no_match_no_errors_witness :
  finditer pattern [] = Ok []
  ∧ parse_logs [] = Ok ([], false)
  ∧ stdout [] = Ok [no_errors_line].
Proof.
  split; [reflexivity|].
  apply (proj2 (no_match_no_errors [])). reflexivity.
Defined.

(** ** Lines of the grammar *)

Lemma literal_app l bol r : literal l bol (l ++ r) = Some (bol_after l bol, r).
Proof. by apply literal_spec. Qed.

(** The match of a line of the grammar: every [+] takes its whole run. *)
Lemma match_parts path l c ws1 ws2 msg rest :
  run (NotChar COLON) path → run Digit l → run Digit c →
  run Space ws1 → run Space ws2 → run Dot msg →
  (∀ x, head msg = Some x → isspace x = false) →
  rest = [] ∨ head rest = Some LF →
  match_items pattern [] true
    (path ++ [COLON] ++ l ++ [COLON] ++ c ++ [COLON]
     ++ ws1 ++ str "error:" ++ ws2 ++ msg ++ rest)
  = Some ([path; l; c; msg], false, rest).
Proof.
  intros Hpath Hl Hc Hws1 Hws2 Hmsg Hhead Hrest.
  unfold pattern. cbn [match_items].
  eapply (greedy_longest _ _ _ _ true); [done | by intros ? [= <-] |].
  cbn beta. rewrite literal_app.
  eapply (greedy_longest _ _ _ _ true); [done | by intros ? [= <-] |].
  cbn beta. rewrite literal_app.
  eapply (greedy_longest _ _ _ _ true); [done | by intros ? [= <-] |].
  cbn beta. rewrite literal_app.
  eapply (greedy_longest _ _ _ _ true); [done | by intros ? [= <-] |].
  cbn beta. rewrite literal_app.
  eapply (greedy_longest _ _ _ _ true); [done | |].
  { intros x Hx. apply Hhead. destruct Hmsg as [Hne _].
    by destruct msg. }
  cbn beta.
  eapply (greedy_longest _ _ _ _ true); [done | |].
  { intros x Hx. destruct Hrest as [->|Hr]; [done|].
    rewrite Hr in Hx. by injection Hx as <-. }
  cbn beta. rewrite (run_Dot_bol msg) by done.
  by destruct Hrest as [->|Hr]; [|destruct rest as [|x rest];
    [|injection Hr as ->]].
Qed.

Lemma forallb_Forall (f : char → bool) t :
  forallb f t = true ↔ Forall (λ c, f c = true) t.
Proof.
  induction t as [|c t IH]; simpl; [by split; [constructor|]|].
  rewrite andb_true_iff, IH, Forall_cons. done.
Qed.

Lemma forallb_weaken (f g : char → bool) t :
  (∀ c, f c = true → g c = true) → forallb f t = true → forallb g t = true.
Proof.
  intros Hfg. rewrite !forallb_Forall. intros H.
  eapply Forall_impl; [exact H | exact Hfg].
Qed.

Lemma all_of_forallb f t : all_of f t = true → t ≠ [] ∧ forallb f t = true.
Proof. by destruct t. Qed.

Lemma all_of_run f cl t :
  (∀ c, f c = true → cclass_in cl c = true) → all_of f t = true → run cl t.
Proof.
  intros Hf [Hne Hall]%all_of_forallb. split; [done|].
  apply forallb_Forall. by apply forallb_weaken with f.
Qed.

Lemma not_lf_elem t : forallb not_lf t = true → LF ∉ t.
Proof.
  rewrite forallb_Forall, Forall_forall. intros H Hin.
  by specialize (H _ Hin).
Qed.

(** A digit is neither a colon nor whitespace nor a line feed. *)
Lemma isdecimal_not_colon c : isdecimal c = true → cclass_in (NotChar COLON) c = true.
Proof.
  intros H. simpl. destruct (N.eqb_spec c COLON) as [->|]; [|done].
  by vm_compute in H.
Qed.

Lemma isdecimal_not_lf c : isdecimal c = true → not_lf c = true.
Proof.
  intros H. unfold not_lf. destruct (N.eqb_spec c LF) as [->|]; [|done].
  by vm_compute in H.
Qed.

(** Where a run of a class ends is determined by the text. *)
Lemma span_unique (f : char → bool) a : ∀ b x y r1 r2,
  Forall (λ c, f c = true) a → Forall (λ c, f c = true) b →
  f x = false → f y = false →
  a ++ x :: r1 = b ++ y :: r2 → a = b ∧ x :: r1 = y :: r2.
Proof.
  induction a as [|c a IH]; intros [|d b] x y r1 r2 Ha Hb Hx Hy E;
    simpl in E.
  - done.
  - injection E as -> _. apply Forall_cons in Hb as [Hb _]. congruence.
  - injection E as -> _. apply Forall_cons in Ha as [Ha _]. congruence.
  - injection E as -> E.
    apply Forall_cons in Ha as [_ Ha]. apply Forall_cons in Hb as [_ Hb].
    destruct (IH _ _ _ _ _ Ha Hb Hx Hy E) as [-> ?]. done.
Qed.

Lemma run_Digit_no_colon t :
  run Digit t → Forall (λ c, cclass_in (NotChar COLON) c = true) t.
Proof.
  intros [_ H]. eapply Forall_impl; [exact H|].
  intros c Hc. by apply isdecimal_not_colon.
Qed.

(** A match at the start of [path:line:col:tail] takes these three parts
    as its first groups, and [tail] goes on as the grammar says. *)
Lemma match_line_inv path l c tail g b' s' :
  Forall (λ x, cclass_in (NotChar COLON) x = true) path →
  Forall (λ x, cclass_in (NotChar COLON) x = true) l →
  Forall (λ x, cclass_in (NotChar COLON) x = true) c →
  match_items pattern [] true
    (path ++ [COLON] ++ l ++ [COLON] ++ c ++ [COLON] ++ tail)
  = Some (g, b', s') →
  ∃ w1 w2 g4,
    g = [path; l; c; g4] ∧ run Space w1 ∧ run Space w2 ∧ run Dot g4
    ∧ tail = w1 ++ str "error:" ++ w2 ++ g4 ++ s'.
Proof.
  intros Hpath Hl Hc H.
  apply pattern_inv in H
    as (_ & _ & g1 & g2 & g3 & w1 & w2 & g4 & -> & H1 & H2 & H3 & Hw1 & Hw2
        & H4 & E & _).
  symmetry in E.
  apply (span_unique (cclass_in (NotChar COLON))) in E as [-> E];
    [|by destruct H1|done..].
  injection E as E.
  apply (span_unique (cclass_in (NotChar COLON))) in E as [-> E];
    [|by apply run_Digit_no_colon|done..].
  injection E as E.
  apply (span_unique (cclass_in (NotChar COLON))) in E as [-> E];
    [|by apply run_Digit_no_colon|done..].
  injection E as E. by exists w1, w2, g4.
Qed.

Lemma lstrip_blank_prefix w x r :
  Forall (λ c, isspace c = true) w → isspace x = false →
  lstrip (w ++ x :: r) = x :: r.
Proof.
  intros Hw Hx. induction Hw as [|c w Hc _ IH]; simpl.
  - by rewrite Hx.
  - by rewrite Hc.
Qed.

Lemma starts_with_app p r : starts_with p (p ++ r) = true.
Proof. induction p as [|c p IH]; [done|]. simpl. by rewrite N.eqb_refl. Qed.

(** A text of one line with no match at its start yields nothing. *)
Lemma parse_logs_no_match s :
  forallb not_lf s = true → match_items pattern [] true s = None →
  parse_logs s = Ok ([], false).
Proof.
  intros Hs H.
  apply (parse_logs_keys s [] []); [|constructor].
  apply scan_one_line; [by apply not_lf_elem | done].
Qed.

Lemma forallb_both (f g : char → bool) t :
  forallb (λ c, f c && g c) t = true →
  forallb f t = true ∧ forallb g t = true.
Proof.
  intros H. split; (eapply forallb_weaken; [|exact H]);
    intros c Hc; by apply andb_true_iff in Hc as [? ?].
Qed.

Lemma line_form_parts d :
  line_form d = true →
  run (NotChar COLON) (d_path d) ∧ forallb not_lf (d_path d) = true
  ∧ run Digit (d_line d) ∧ run Digit (d_col d)
  ∧ forallb isspace (d_ws1 d) = true ∧ forallb not_lf (d_ws1 d) = true
  ∧ forallb isspace (d_ws2 d) = true ∧ forallb not_lf (d_ws2 d) = true
  ∧ run Dot (d_msg d)
  ∧ (∀ x, head (d_msg d) = Some x → isspace x = false).
Proof.
  unfold line_form, blanks. rewrite !andb_true_iff.
  intros [[[[[[H1 H2] H3] H4] H5] H6] H7].
  pose proof forallb_both as Hand.
  destruct (all_of_forallb _ _ H1) as [_ [_ H1']%Hand].
  destruct (Hand _ _ _ H4) as [? ?]. destruct (Hand _ _ _ H5) as [? ?].
  repeat split; try done.
  - by destruct (d_path d).
  - apply forallb_Forall. eapply forallb_weaken; [|by apply all_of_forallb].
    intros c Hc. by apply andb_true_iff in Hc as [? ?].
  - by destruct (d_line d).
  - apply forallb_Forall. by apply all_of_forallb.
  - by destruct (d_col d).
  - apply forallb_Forall. by apply all_of_forallb.
  - by destruct (d_msg d).
  - apply forallb_Forall. by apply all_of_forallb.
  - intros x Hx. destruct (d_msg d) as [|y m]; [done|].
    injection Hx as ->. by apply negb_true_iff.
Qed.

Lemma line_form_no_lf d :
  line_form d = true → forallb not_lf (diag_text d) = true.
Proof.
  intros (H1 & H1' & [_ H2] & [_ H3] & _ & H4 & _ & H5 & [_ H6] & _)
    %line_form_parts.
  unfold diag_text. rewrite !forallb_app, H1', H4, H5. simpl.
  assert (∀ t, Forall (λ c, cclass_in Digit c = true) t →
            forallb not_lf t = true) as Hd.
  { intros t Ht. apply forallb_Forall. eapply Forall_impl; [exact Ht|].
    intros c Hc. by apply isdecimal_not_lf. }
  rewrite (Hd _ H2), (Hd _ H3). by apply forallb_Forall.
Qed.

Lemma rstrip_blank w : forallb isspace w = true → rstrip w = [].
Proof.
  induction w as [|c w IH]; [done|]. simpl.
  intros [Hc Hw]%andb_true_iff. by rewrite IH, Hc.
Qed.

Lemma rstrip_app_blank t w :
  forallb isspace w = true → rstrip (t ++ w) = rstrip t.
Proof.
  intros Hw. induction t as [|c t IH]; simpl.
  - by apply rstrip_blank.
  - by rewrite IH.
Qed.

(** Whitespace behind a message is stripped with it. *)
Lemma strip_pad msg pad :
  (∀ x, head msg = Some x → isspace x = false) →
  forallb isspace pad = true → strip (msg ++ pad) = strip msg.
Proof.
  intros Hhead Hpad. unfold strip. destruct msg as [|x msg].
  - simpl. rewrite rstrip_blank; [done|].
    clear Hhead. induction pad as [|c pad IH]; [done|].
    simpl in *. apply andb_true_iff in Hpad as [Hc Hpad]. rewrite Hc. auto.
  - simpl. rewrite (Hhead x) by done.
    by apply (rstrip_app_blank (x :: msg)).
Qed.

Lemma well_formed_parts d :
  well_formed d = true →
  line_form d = true ∧ run Space (d_ws1 d) ∧ run Space (d_ws2 d).
Proof.
  unfold well_formed. rewrite !andb_true_iff. intros [[Hd H1] H2].
  split; [done|].
  destruct (line_form_parts d Hd) as (_ & _ & _ & _ & W1 & _ & W2 & _).
  split; (split; [|by apply forallb_Forall]).
  - by destruct (d_ws1 d).
  - by destruct (d_ws2 d).
Qed.

(** The scan over a well-formed line: its match is reported, with the
    whitespace [pad] that follows the message on the line added to the
    last group. *)
Lemma scan_line d pad rest :
  well_formed d = true → blanks pad = true →
  rest = [] ∨ head rest = Some LF →
  scan true (diag_text d ++ pad ++ rest) =
  (ms ← scan false rest;
   Ok ([d_path d; d_line d; d_col d; d_msg d ++ pad] :: ms)).
Proof.
  intros (Hd & W1 & W2)%well_formed_parts [Hsp Hnl]%forallb_both Hrest.
  destruct (line_form_parts d Hd)
    as (P & _ & L & C & _ & _ & _ & _ & [Mne M] & Hhead).
  apply scan_match. unfold diag_text.
  rewrite <- !app_assoc, (app_assoc (d_msg d) pad rest).
  apply match_parts; try done.
  - split; [by destruct (d_msg d)|]. apply Forall_app. split; [done|].
    apply forallb_Forall. eapply forallb_weaken; [|exact Hnl]. done.
  - intros x Hx. apply Hhead. by destruct (d_msg d).
Qed.

Lemma keyed_line d pad :
  line_form d = true → forallb isspace pad = true →
  keyed [d_path d; d_line d; d_col d; d_msg d ++ pad] (diag_key d).
Proof.
  intros Hd Hpad. eexists _, _, _, _. split; [done|]. unfold diag_key.
  rewrite strip_pad; [done| |done].
  by destruct (line_form_parts d Hd) as (_ & _ & _ & _ & _ & _ & _ & _ & _ & ?).
Qed.

Lemma crlf_app a b : crlf (a ++ b) = crlf a ++ crlf b.
Proof.
  induction a as [|c a IH]; [done|]. simpl.
  destruct (c =? LF); simpl; by rewrite IH.
Qed.

Lemma crlf_no_lf t : forallb not_lf t = true → crlf t = t.
Proof.
  induction t as [|c t IH]; [done|]. simpl. unfold not_lf at 1.
  intros [Hc Ht]%andb_true_iff. apply negb_true_iff in Hc.
  by rewrite Hc, IH.
Qed.

Lemma lstrip_before_error w r :
  Forall (λ c, isspace c = true) w →
  lstrip (w ++ str "error:" ++ r) = str "error:" ++ r.
Proof. intros Hw. exact (lstrip_blank_prefix w 101 _ Hw eq_refl). Qed.

Lemma before_error_unique a b r1 r2 :
  Forall (λ c, isspace c = true) a → Forall (λ c, isspace c = true) b →
  a ++ str "error:" ++ r1 = b ++ str "error:" ++ r2 → a = b ∧ r1 = r2.
Proof.
  intros Ha Hb E.
  apply (span_unique isspace a b 101 101
           (str "rror:" ++ r1) (str "rror:" ++ r2)) in E as [-> E];
    [|done..].
  split; [done|]. by apply (app_inv_head (str "error:")).
Qed.

Lemma forallb_not_colon t :
  forallb (λ x, negb (x =? COLON)) t = true →
  Forall (λ x, cclass_in (NotChar COLON) x = true) t.
Proof. by rewrite forallb_Forall. Qed.

Lemma digits_not_colon t :
  forallb isdecimal t = true →
  Forall (λ x, cclass_in (NotChar COLON) x = true) t.
Proof.
  rewrite forallb_Forall. intros H. eapply Forall_impl; [exact H|].
  apply isdecimal_not_colon.
Qed.

(** C5. Only [error:] is a severity for the pattern: a line
    [path:line:col:tail] whose tail, its leading whitespace apart, does
    not start with the characters [error:] (another keyword such as
    [warning:] or [note:], or another casing such as [Error:]) yields no
    report. *)
Theorem other_severity_no_report path l c tail :
  all_of (λ x, negb (x =? COLON) && not_lf x) path = true →
  all_of isdecimal l = true → all_of isdecimal c = true →
  forallb not_lf tail = true →
  starts_with (str "error:") (lstrip tail) = false →
  parse_logs (path ++ [COLON] ++ l ++ [COLON] ++ c ++ [COLON] ++ tail)
  = Ok ([], false).
Proof.
  intros Hp Hl Hc Ht Hsev.
  destruct (all_of_forallb _ _ Hp) as [_ [Hp1 Hp2]%forallb_both].
  destruct (all_of_forallb _ _ Hl) as [_ Hl'].
  destruct (all_of_forallb _ _ Hc) as [_ Hc'].
  apply parse_logs_no_match.
  - rewrite !forallb_app, Hp2, Ht. simpl.
    by rewrite (forallb_weaken _ _ _ isdecimal_not_lf Hl'),
      (forallb_weaken _ _ _ isdecimal_not_lf Hc').
  - destruct (match_items pattern [] true _) as [[[g b'] s']|] eqn:E; [|done].
    exfalso.
    apply match_line_inv in E as (w1 & w2 & g4 & _ & [_ Hw1] & _ & _ & ->);
      [| by apply forallb_not_colon | by apply digits_not_colon..].
    rewrite lstrip_before_error, starts_with_app in Hsev; done.
Qed.

Lemma other_severity_no_report_witness :
  parse_logs (str "path:1:1: warning: message") = Ok ([], false)
  ∧ parse_logs (str "path:1:1: note: message") = Ok ([], false)
  ∧ parse_logs (str "path:1:1: Error: message") = Ok ([], false).
Proof.
  split; [|split].
  - apply (other_severity_no_report (str "path") (str "1") (str "1")
             (str " warning: message")); reflexivity.
  - apply (other_severity_no_report (str "path") (str "1") (str "1")
             (str " note: message")); reflexivity.
  - apply (other_severity_no_report (str "path") (str "1") (str "1")
             (str " Error: message")); reflexivity.
Defined.

Lemma parse_logs_well_formed d :
  well_formed d = true → parse_logs (diag_text d) = Ok ([diag_key d], true).
Proof.
  intros Hd.
  pose proof (scan_line d [] [] Hd eq_refl (or_introl eq_refl)) as Hs.
  rewrite scan_nil in Hs. cbn [mbind result_bind app] in Hs.
  rewrite !app_nil_r in Hs.
  apply well_formed_parts in Hd as [Hd _].
  pose proof (keyed_line d [] Hd eq_refl) as Hk. rewrite app_nil_r in Hk.
  by rewrite (parse_logs_keys _ _ [diag_key d] Hs) by by constructor.
Qed.

(** C3, as the code has it. Whitespace is required on both sides of
    [error:]: a line [path:line:col:<ws1>error:<ws2>msg], with [ws1] and
    [ws2] whitespace or nothing and [msg] starting with a character that is
    not whitespace, yields its report when both [ws1] and [ws2] are
    non-empty, and no report when either is empty. *)
Theorem error_needs_whitespace d :
  line_form d = true →
  parse_logs (diag_text d) =
  if nonempty (d_ws1 d) && nonempty (d_ws2 d)
  then Ok ([diag_key d], true)
  else Ok ([], false).
Proof.
  intros Hd. destruct (nonempty (d_ws1 d) && nonempty (d_ws2 d)) eqn:Hws.
  - apply parse_logs_well_formed. unfold well_formed.
    by rewrite Hd, <- andb_assoc, Hws.
  - apply parse_logs_no_match; [by apply line_form_no_lf|].
    destruct (match_items pattern [] true _) as [[[g b'] s']|] eqn:E; [|done].
    exfalso.
    destruct (line_form_parts d Hd)
      as ([_ P] & _ & [_ L] & [_ C] & W1 & _ & W2 & _ & _ & Hhead).
    apply match_line_inv in E
      as (w1 & w2 & g4 & _ & [Hne1 Hw1] & [Hne2 Hw2] & _ & E);
      [|done | eapply Forall_impl; [done | apply isdecimal_not_colon]..].
    apply before_error_unique in E as [E1 E2];
      [|by apply forallb_Forall | done].
    rewrite E1 in Hws. destruct w1 as [|x1 w1]; [done|]. simpl in Hws.
    destruct (d_ws2 d) as [|y ws2]; [|done]. simpl in E2.
    destruct w2 as [|x2 w2]; [done|].
    apply Forall_cons in Hw2 as [Hx2 _]. simpl in Hx2.
    rewrite (Hhead x2) in Hx2; [done|]. by rewrite E2.
Qed.

Lemma error_needs_whitespace_witness :
  parse_logs (str "a.swift:1:2: error: msg")
  = Ok ([(str "a.swift", str "1", str "msg")], true)
  ∧ parse_logs (str "a.swift:1:2:error: msg") = Ok ([], false)
  ∧ parse_logs (str "a.swift:1:2: error:msg") = Ok ([], false).
Proof.
  split; [|split].
  - apply (error_needs_whitespace
      {| d_path := str "a.swift"; d_line := str "1"; d_col := str "2";
         d_ws1 := str " "; d_ws2 := str " "; d_msg := str "msg" |}).
    reflexivity.
  - apply (error_needs_whitespace
      {| d_path := str "a.swift"; d_line := str "1"; d_col := str "2";
         d_ws1 := []; d_ws2 := str " "; d_msg := str "msg" |}).
    reflexivity.
  - apply (error_needs_whitespace
      {| d_path := str "a.swift"; d_line := str "1"; d_col := str "2";
         d_ws1 := str " "; d_ws2 := []; d_msg := str "msg" |}).
    reflexivity.
Defined.

(** C3, as the specification has it, fails: with [error:] right behind
    the colon of the column there is no report. *)
Lemma error_without_whitespace_unreported :
  parse_logs (str "a.swift:1:2:error:msg") = Ok ([], false).
Proof. vm_compute. reflexivity. Qed.

(** ** Logs *)

Lemma starts_with_blank_ext p : ∀ t r,
  Forall (λ c, isspace c = false) p →
  (∀ x, head r = Some x → isspace x = true) →
  starts_with p t = false → starts_with p (t ++ r) = false.
Proof.
  induction p as [|a p IH]; intros t r Hp Hr H; [done|].
  apply Forall_cons in Hp as [Ha Hp].
  destruct t as [|b t]; simpl in *.
  - destruct r as [|x r]; [done|].
    destruct (N.eqb_spec a x) as [->|]; [|done].
    rewrite (Hr x) in Ha; done.
  - destruct (a =? b); [|done]. simpl in *. by apply IH.
Qed.

Lemma lstrip_app t r :
  nonempty (lstrip t) = true → lstrip (t ++ r) = lstrip t ++ r.
Proof.
  induction t as [|c t IH]; simpl; [done|].
  destruct (isspace c); [auto | done].
Qed.

(** No match starts on a line of another severity, whatever whitespace
    follows it. *)
Lemma other_line_no_match path l c tail r :
  line_ok (OtherLine path l c tail) = true →
  (∀ x, head r = Some x → isspace x = true) →
  match_items pattern [] true (line_text (OtherLine path l c tail) ++ r)
  = None.
Proof.
  unfold line_ok. rewrite !andb_true_iff.
  intros [[[[[Hp Hl] Hc] Ht] Hne] Hsev] Hr. apply negb_true_iff in Hsev.
  destruct (all_of_forallb _ _ Hp) as [_ [Hp1 _]%forallb_both].
  destruct (all_of_forallb _ _ Hl) as [_ Hl'].
  destruct (all_of_forallb _ _ Hc) as [_ Hc'].
  destruct (match_items pattern [] true _) as [[[g b'] s']|] eqn:E; [|done].
  exfalso. unfold line_text in E. rewrite <- !app_assoc in E.
  apply match_line_inv in E as (w1 & w2 & g4 & _ & [_ Hw1] & _ & _ & E);
    [| by apply forallb_not_colon | by apply digits_not_colon..].
  assert (starts_with (str "error:") (lstrip (tail ++ r)) = true) as H
    by by rewrite E, lstrip_before_error, starts_with_app.
  rewrite lstrip_app, starts_with_blank_ext in H; try done.
  by repeat constructor.
Qed.

(** Behind a match or a failed attempt, the scan goes to the next line. *)
Lemma scan_to_line_end t rest :
  forallb not_lf t = true → scan false (t ++ LF :: rest) = scan true rest.
Proof.
  induction t as [|c t IH]; simpl.
  - intros _. apply scan_line_feed.
  - unfold not_lf at 1. intros [Hc Ht]%andb_true_iff.
    apply negb_true_iff in Hc. rewrite scan_skip by done.
    rewrite Hc. by apply IH.
Qed.

Lemma scan_skip_line t rest :
  t ≠ [] → forallb not_lf t = true →
  match_items pattern [] true (t ++ LF :: rest) = None →
  scan true (t ++ LF :: rest) = scan true rest.
Proof.
  destruct t as [|c t]; [done|]. simpl. unfold not_lf at 1.
  intros _ [Hc Ht]%andb_true_iff Hno. apply negb_true_iff in Hc.
  rewrite scan_skip by done. rewrite Hc. by apply scan_to_line_end.
Qed.

Lemma line_text_no_lf ln :
  line_ok ln = true → forallb not_lf (line_text ln) = true.
Proof.
  destruct ln as [d|path l c tail]; cbn [line_text line_ok].
  - intros [Hd _]%well_formed_parts. by apply line_form_no_lf.
  - rewrite !andb_true_iff. intros [[[[[Hp Hl] Hc] Ht] _] _].
    destruct (all_of_forallb _ _ Hp) as [_ [_ Hp2]%forallb_both].
    destruct (all_of_forallb _ _ Hl) as [_ Hl'].
    destruct (all_of_forallb _ _ Hc) as [_ Hc'].
    rewrite !forallb_app, Hp2, Ht. simpl.
    by rewrite (forallb_weaken _ _ _ isdecimal_not_lf Hl'),
      (forallb_weaken _ _ _ isdecimal_not_lf Hc').
Qed.

Lemma scan_other path l c tail pad rest :
  line_ok (OtherLine path l c tail) = true → blanks pad = true →
  scan true (line_text (OtherLine path l c tail) ++ pad ++ LF :: rest)
  = scan true rest.
Proof.
  intros Hok [Hsp Hnl]%forallb_both. rewrite app_assoc.
  apply scan_skip_line.
  - simpl in Hok. rewrite !andb_true_iff in Hok.
    destruct Hok as [[[[[Hp _] _] _] _] _]. simpl. by destruct path.
  - by rewrite forallb_app, line_text_no_lf.
  - rewrite <- app_assoc. apply other_line_no_match; [done|].
    intros x Hx. destruct pad as [|y pad]; simpl in *.
    + by injection Hx as <-.
    + injection Hx as <-. by apply andb_true_iff in Hsp as [? _].
Qed.

(** The scan over a log whose lines are ended by optional whitespace and
    a line feed: one match per [ErrorLine], with the key of the line, and
    none for an [OtherLine]. *)
Lemma scan_log pad lns :
  forallb line_ok lns = true → blanks pad = true →
  ∃ ms, scan true (log_text (pad ++ [LF]) lns) = Ok ms
        ∧ Forall2 keyed ms (concat (map line_keys lns)).
Proof.
  intros Hlns Hpad. induction lns as [|ln lns IH].
  - exists []. split; [done | constructor].
  - cbn [forallb] in Hlns. apply andb_true_iff in Hlns as [Hln Hlns].
    destruct (IH Hlns) as (ms & Hms & Hks).
    cbn [log_text]. rewrite <- app_assoc.
    change ([LF] ++ log_text (pad ++ [LF]) lns)
      with (LF :: log_text (pad ++ [LF]) lns).
    destruct ln as [d|path l c tail].
    + cbn [line_text]. rewrite scan_line by (done || by right).
      rewrite scan_line_feed, Hms. eexists. split; [done|].
      cbn [map concat line_keys app].
      constructor; [|done]. apply keyed_line.
      * by apply well_formed_parts in Hln as [? _].
      * by apply forallb_both in Hpad as [? _].
    + rewrite scan_other by done. by exists ms.
Qed.

(** The reports of such a log: the keys of its diagnostics, each once. *)
Lemma parse_logs_log pad lns :
  forallb line_ok lns = true → blanks pad = true →
  parse_logs (log_text (pad ++ [LF]) lns)
  = Ok (distinct_in_order (concat (map line_keys lns)),
        bool_decide (concat (map line_keys lns) ≠ [])).
Proof.
  intros Hlns Hpad.
  destruct (scan_log pad lns Hlns Hpad) as (ms & Hms & Hks).
  by apply parse_logs_keys with ms.
Qed.

Lemma crlf_log lns :
  forallb line_ok lns = true →
  crlf (log_text [LF] lns) = log_text [CR; LF] lns.
Proof.
  induction lns as [|ln lns IH]; [done|]. cbn [forallb log_text].
  intros [Hln Hlns]%andb_true_iff.
  rewrite crlf_app, crlf_no_lf by by apply line_text_no_lf.
  simpl. by rewrite IH.
Qed.

(** C7. The line number is compared as text: two lines that differ only
    in how the line number is written (as in [7] and [007]) have two keys
    and yield two reports, each with its digits as written. *)
Theorem line_number_is_text path l1 l2 c ws1 ws2 msg :
  let d1 := {| d_path := path; d_line := l1; d_col := c;
               d_ws1 := ws1; d_ws2 := ws2; d_msg := msg |} in
  let d2 := {| d_path := path; d_line := l2; d_col := c;
               d_ws1 := ws1; d_ws2 := ws2; d_msg := msg |} in
  well_formed d1 = true → well_formed d2 = true → l1 ≠ l2 →
  parse_logs (log_text [LF] [ErrorLine d1; ErrorLine d2])
  = Ok ([(strip path, l1, strip msg); (strip path, l2, strip msg)], true).
Proof.
  intros d1 d2 H1 H2 Hne.
  pose proof (parse_logs_log [] [ErrorLine d1; ErrorLine d2]) as H.
  change (log_text ([] ++ [LF])) with (log_text [LF]) in H.
  rewrite H; [|cbn [forallb line_ok]; by rewrite H1, H2 | done]. clear H.
  cbn [map concat line_keys app distinct_in_order]. rewrite filter_nil.
  rewrite filter_cons_True by (unfold diag_key; cbn; congruence).
  by rewrite filter_nil.
Qed.

Lemma line_number_is_text_witness :
  parse_logs (str "P:7:1: error: M" ++ [LF] ++ str "P:007:1: error: M" ++ [LF])
  = Ok ([(str "P", str "7", str "M"); (str "P", str "007", str "M")], true).
Proof.
  apply (line_number_is_text (str "P") (str "7") (str "007") (str "1")
           (str " ") (str " ") (str "M")).
  - reflexivity.
  - reflexivity.
  - discriminate.
Defined.

(** For a log whose lines are well-formed diagnostics or lines of the same
    form with another severity, each ended by a line feed, replacing every
    line feed by carriage return and line feed changes neither the reports
    nor the flag: the carriage return is stripped from the end of the
    message. *)
Theorem well_formed_log_crlf lns :
  forallb line_ok lns = true →
  crlf (log_text [LF] lns) = log_text [CR; LF] lns
  ∧ parse_logs (crlf (log_text [LF] lns)) = parse_logs (log_text [LF] lns).
Proof.
  intros Hlns. split; [by apply crlf_log|]. rewrite crlf_log by done.
  etrans; [exact (parse_logs_log [CR] lns Hlns eq_refl)|].
  symmetry. exact (parse_logs_log [] lns Hlns eq_refl).
Qed.

Lemma well_formed_log_crlf_witness :
  parse_logs (str "foo.swift:10:5: error: missing semicolon" ++ [CR; LF]
              ++ str "bar.swift:3:1: warning: unused variable" ++ [CR; LF]
              ++ str "foo.swift:10:9: error: missing semicolon" ++ [CR; LF]
              ++ str "baz.swift:7:2: error: type mismatch" ++ [CR; LF])
  = parse_logs (str "foo.swift:10:5: error: missing semicolon" ++ [LF]
                ++ str "bar.swift:3:1: warning: unused variable" ++ [LF]
                ++ str "foo.swift:10:9: error: missing semicolon" ++ [LF]
                ++ str "baz.swift:7:2: error: type mismatch" ++ [LF]).
Proof.
  apply (well_formed_log_crlf
    [ ErrorLine
        {| d_path := str "foo.swift"; d_line := str "10"; d_col := str "5";
           d_ws1 := str " "; d_ws2 := str " ";
           d_msg := str "missing semicolon" |};
      OtherLine (str "bar.swift") (str "3") (str "1")
        (str " warning: unused variable");
      ErrorLine
        {| d_path := str "foo.swift"; d_line := str "10"; d_col := str "9";
           d_ws1 := str " "; d_ws2 := str " ";
           d_msg := str "missing semicolon" |};
      ErrorLine
        {| d_path := str "baz.swift"; d_line := str "7"; d_col := str "2";
           d_ws1 := str " "; d_ws2 := str " ";
           d_msg := str "type mismatch" |} ]).
  reflexivity.
Defined.

(** A line without colon before a diagnostic is part of its path, and the
    carriage return stays inside that path. *)
Lemma crlf_changes_reports :
  parse_logs (crlf (str "x" ++ [LF] ++ str "y:1:2: error: m"))
  ≠ parse_logs (str "x" ++ [LF] ++ str "y:1:2: error: m").
Proof. vm_compute. discriminate. Qed.

(** ** What the groups and the reports hold *)

Lemma finditer_from_sound fuel : ∀ bol s ms,
  finditer_from fuel pattern bol s = Ok ms → Forall groups_ok ms.
Proof.
  induction fuel as [|fuel IH]; intros bol s ms; [done|].
  rewrite finditer_from_S.
  destruct (search pattern bol s) as [[[g b'] s']|] eqn:E.
  - destruct (finditer_from fuel pattern b' s') as [ms'|] eqn:E'; [|done].
    intros [= <-]. constructor; [|by eapply IH].
    apply search_sound in E as (pre & mid & _ & E).
    apply pattern_inv in E
      as (_ & _ & g1 & g2 & g3 & w1 & w2 & g4 & -> & ? & ? & ? & _ & _
          & ? & _).
    by exists g1, g2, g3, g4.
  - intros [= <-]. constructor.
Qed.

Lemma elem_of_lstrip x t : x ∈ lstrip t → x ∈ t.
Proof.
  induction t as [|c t IH]; [done|]. simpl.
  destruct (isspace c); [|done]. intros H. right. auto.
Qed.

Lemma elem_of_rstrip x t : x ∈ rstrip t → x ∈ t.
Proof.
  induction t as [|c t IH]; [done|]. simpl.
  destruct (rstrip t) as [|d r].
  - destruct (isspace c); [by intros ?%not_elem_of_nil|].
    intros ->%list_elem_of_singleton. left.
  - intros [->|H]%elem_of_cons; [left | right; auto].
Qed.

Lemma elem_of_strip x t : x ∈ strip t → x ∈ t.
Proof. intros H. by apply elem_of_lstrip, elem_of_rstrip. Qed.

Lemma run_excludes cl t x : run cl t → cclass_in cl x = false → x ∉ t.
Proof.
  intros [_ H] Hx Hin. rewrite Forall_forall in H.
  specialize (H _ Hin). congruence.
Qed.

(** The key of a match: no colon in the path, the line as the digits
    matched, no line feed in the message. *)
Lemma keyed_fields m k :
  groups_ok m → keyed m k →
  (COLON ∉ key_path k) ∧ run Digit (key_line k) ∧ (LF ∉ key_msg k).
Proof.
  intros (g1 & l & c & g4 & -> & H1 & Hl & _ & H4)
         (g1' & l' & c' & g4' & [= <- <- <- <-] & ->). cbn.
  split; [|split; [done|]].
  - intros H%elem_of_strip. by apply (run_excludes _ _ _ H1) in H.
  - intros H%elem_of_strip. by apply (run_excludes _ _ _ H4) in H.
Qed.

Lemma keys_fields ms ks :
  Forall groups_ok ms → Forall2 keyed ms ks →
  Forall (λ k, (COLON ∉ key_path k) ∧ run Digit (key_line k)
               ∧ (LF ∉ key_msg k)) ks.
Proof.
  intros Hok Hks. induction Hks as [|m k ms ks Hmk _ IH]; [constructor|].
  apply Forall_cons in Hok as [Hm Hok].
  constructor; [by apply keyed_fields with m | by apply IH].
Qed.

(** C8, as the code has it. The line and column numbers of every match
    are non-empty strings of decimal digits, taken as written and not read
    as numbers (so zero is accepted), and the line of every report is such
    a string. *)
Theorem positions_are_digit_strings (log_content : text) :
  ∃ ms reports found,
    finditer pattern log_content = Ok ms
    ∧ parse_logs log_content = Ok (reports, found)
    ∧ Forall (λ m, ∃ l c, group m 2 = Ok l ∧ group m 3 = Ok c
                          ∧ run Digit l ∧ run Digit c) ms
    ∧ Forall (λ k, run Digit (key_line k)) reports.
Proof.
  destruct (finditer_from_total (S (length log_content)) true log_content)
    as (ms & Hms & Hlen); [lia|].
  destruct (keyed_total ms Hlen) as [ks Hks].
  pose proof (finditer_from_sound _ _ _ _ Hms) as Hok.
  exists ms, (distinct_in_order ks), (bool_decide (ks ≠ [])).
  split; [exact Hms|].
  split; [by apply parse_logs_keys with ms|]. split.
  - eapply Forall_impl; [exact Hok|].
    intros m (g1 & l & c & g4 & -> & _ & Hl & Hc & _). by exists l, c.
  - apply Forall_forall. intros k Hk. rewrite elem_of_distinct in Hk.
    pose proof (keys_fields ms ks Hok Hks) as Hf.
    rewrite Forall_forall in Hf. by apply Hf.
Qed.

(** C8, as stated, fails: the position [0:0] is matched and reported, and
    neither number is positive. *)
Lemma zero_position_is_reported :
  ¬ (∀ log_content ms m l c,
       finditer pattern log_content = Ok ms → m ∈ ms →
       group m 2 = Ok l → group m 3 = Ok c →
       0 < int_of l ∧ 0 < int_of c).
Proof.
  intros H.
  assert (finditer pattern (str "a.swift:0:0: error: msg")
          = Ok [[str "a.swift"; str "0"; str "0"; str "msg"]]) as Hms
    by (vm_compute; reflexivity).
  destruct (H _ _ _ (str "0") (str "0") Hms (list_elem_of_here _ _) eq_refl eq_refl)
    as [H0 _].
  by vm_compute in H0.
Qed.

(** C2: the code on the line of the third scenario. The message group
    takes the last of the spaces behind [error:], stripping leaves the
    empty message, and the line is reported. *)
Theorem blank_message_is_reported :
  parse_logs (str "x.swift:1:1: error:    ")
  = Ok ([(str "x.swift", str "1", [])], true)
  ∧ parse_logs (str "x.swift:1:1: error: ") = Ok ([], false).
Proof. split; vm_compute; reflexivity. Qed.

(** C4: the code on diagnostics that do not stay on one line. [[^:]] and
    [\s] take line feeds: a line without colon before a diagnostic becomes
    part of its path, and a diagnostic cut behind its position is
    reported. *)
Theorem match_spans_lines :
  parse_logs (str "Compiling" ++ [LF] ++ str "foo.swift:1:2: error: m")
  = Ok ([(str "Compiling" ++ [LF] ++ str "foo.swift", str "1", str "m")], true)
  ∧ parse_logs (str "a.swift:1:2:" ++ [LF] ++ str "error: msg")
    = Ok ([(str "a.swift", str "1", str "msg")], true).
Proof. split; vm_compute; reflexivity. Qed.

(** * Further properties of [parse_logs]

    ** Where a match starts *)

Lemma match_is_diagnostic bol s :
  is_Some (match_items pattern [] bol s) → bol = true ∧ diagnostic_at s.
Proof.
  intros [[[g b'] s'] H].
  apply pattern_inv in H
    as (-> & _ & g1 & g2 & g3 & w1 & w2 & g4 & _ & ? & ? & ? & ? & ? & ?
        & ? & ?).
  split; [done|]. by exists g1, g2, g3, w1, w2, g4, s'.
Qed.

Lemma diagnostic_is_matched s :
  diagnostic_at s → is_Some (match_items pattern [] true s).
Proof.
  intros (g1 & g2 & g3 & w1 & w2 & g4 & s' & H1 & H2 & H3 & Hw1 & Hw2
          & H4 & -> & Hend).
  apply (match_items_complete pattern [] true _ [g1; g2; g3; g4]
           (bol_after g4 (bol_after w2 (bol_after (str "error:")
              (bol_after w1 (bol_after [COLON] (bol_after g3
              (bol_after [COLON] (bol_after g2 (bol_after [COLON]
              (bol_after g1 true)))))))))) s').
  cbn [shape pattern]. split; [done|].
  eexists g1, _, _. do 3 (split; [done|]).
  eexists. split; [done|].
  eexists g2, _, _. do 3 (split; [done|]).
  eexists. split; [done|].
  eexists g3, _, _. do 3 (split; [done|]).
  eexists. split; [done|].
  eexists w1, _. do 2 (split; [done|]).
  eexists. split; [done|].
  eexists w2, _. do 2 (split; [done|]).
  eexists g4, _, _. do 3 (split; [done|]).
  done.
Qed.

(** X1. The pattern matches at a position exactly when the position is
    the start of a line and a diagnostic stands there: a path without
    colon, the two numbers, [error:] between two non-empty runs of
    whitespace, and a non-empty message up to the end of a line; the path
    and the whitespace may hold line feeds. *)
Theorem match_iff_diagnostic bol s :
  is_Some (match_items pattern [] bol s) ↔ bol = true ∧ diagnostic_at s.
Proof.
  split; [apply match_is_diagnostic|].
  intros [-> H]. by apply diagnostic_is_matched.
Qed.




(** ** What a report holds *)

Lemma lstrip_head t x : head (lstrip t) = Some x → isspace x = false.
Proof.
  induction t as [|c t IH]; [done|]. simpl.
  destruct (isspace c) eqn:Hc; [done|]. by intros [= <-].
Qed.

Lemma rstrip_head t x : head (rstrip t) = Some x → head t = Some x.
Proof.
  destruct t as [|c t]; [done|]. simpl.
  destruct (rstrip t); [by destruct (isspace c)|done].
Qed.

Lemma rstrip_last t x : last (rstrip t) = Some x → isspace x = false.
Proof.
  induction t as [|c t IH]; [done|]. simpl.
  destruct (rstrip t) as [|d r].
  - destruct (isspace c) eqn:Hc; [done|]. by intros [= <-].
  - by rewrite last_cons_cons.
Qed.

Lemma strip_stripped t : stripped (strip t).
Proof.
  split; intros x H.
  - by apply rstrip_head, lstrip_head in H.
  - by apply rstrip_last in H.
Qed.

(** X3. No report has a colon in its path or a line feed in its message, and
    neither field starts or ends with whitespace; the line is a non-empty
    string of digits. *)
Theorem report_fields (log_content : text) :
  ∃ reports found,
    parse_logs log_content = Ok (reports, found)
    ∧ Forall (λ k, (COLON ∉ key_path k) ∧ stripped (key_path k)
                   ∧ run Digit (key_line k)
                   ∧ (LF ∉ key_msg k) ∧ stripped (key_msg k)) reports.
Proof.
  destruct (finditer_from_total (S (length log_content)) true log_content)
    as (ms & Hms & Hlen); [lia|].
  destruct (keyed_total ms Hlen) as [ks Hks].
  pose proof (finditer_from_sound _ _ _ _ Hms) as Hok.
  eexists _, _. split; [by apply parse_logs_keys with ms|].
  apply Forall_forall. intros k Hk. rewrite elem_of_distinct in Hk.
  pose proof (keys_fields ms ks Hok Hks) as Hf.
  rewrite Forall_forall in Hf. destruct (Hf k Hk) as (? & ? & ?).
  assert (stripped (key_path k) ∧ stripped (key_msg k)) as [? ?]; [|done].
  clear Hf Hok Hms Hlen.
  induction Hks as [|m k' ms ks (g1 & l & c & g4 & _ & ->) _ IH];
    [by apply not_elem_of_nil in Hk|].
  apply elem_of_cons in Hk as [->|Hk]; [|by apply IH].
  split; apply strip_stripped.
Qed.

(** ** How many reports *)

Lemma line_feeds_app (a b : list char) :
  line_feeds (a ++ b) = (line_feeds a + line_feeds b)%nat.
Proof. unfold line_feeds. by rewrite filter_app, length_app. Qed.

Lemma bol_after_line_feed pre :
  pre ≠ [] → bol_after pre false = true → (1 ≤ line_feeds pre)%nat.
Proof.
  intros Hne H. unfold bol_after in H.
  destruct (last pre) as [c|] eqn:E; [|done].
  apply N.eqb_eq in H as ->. apply last_Some in E as [pre' ->].
  unfold line_feeds.
  assert (LF ∈ filter (λ c, c = LF) (pre' ++ [LF])) as Hin.
  { apply list_elem_of_filter. split; [done|].
    apply elem_of_app. right. apply list_elem_of_singleton. done. }
  destruct (filter _ _); [by apply not_elem_of_nil in Hin | simpl; lia].
Qed.

(** Every match starts a line of its own. *)
Lemma finditer_from_count fuel : ∀ bol s ms,
  finditer_from fuel pattern bol s = Ok ms →
  (length ms ≤ line_feeds s + (if bol then 1 else 0))%nat.
Proof.
  induction fuel as [|fuel IH]; intros bol s ms; [done|].
  rewrite finditer_from_S.
  destruct (search pattern bol s) as [[[g b'] s']|] eqn:E.
  - destruct (finditer_from fuel pattern b' s') as [ms'|] eqn:E'; [|done].
    intros [= <-]. apply IH in E'.
    apply search_sound in E as (pre & mid & -> & E).
    pose proof E as Hinv.
    apply pattern_inv in Hinv as (Hb & -> & g1 & g2 & g3 & w1 & w2 & g4 & _
      & _ & _ & _ & _ & _ & _ & -> & _).
    rewrite !line_feeds_app. cbn [length].
    destruct pre as [|c pre].
    + cbn in Hb. subst bol. lia.
    + assert (1 ≤ line_feeds (c :: pre))%nat.
      { apply bol_after_line_feed; [done|].
        by rewrite <- (bol_after_nonempty (c :: pre) bol). }
      lia.
  - intros [= <-]. simpl. lia.
Qed.

(** X4. There are never more reports than the text has lines. *)
Theorem reports_at_most_lines (log_content : text) :
  ∃ reports found,
    parse_logs log_content = Ok (reports, found)
    ∧ (length reports ≤ line_count log_content)%nat.
Proof.
  destruct (finditer_from_total (S (length log_content)) true log_content)
    as (ms & Hms & Hlen); [lia|].
  destruct (keyed_total ms Hlen) as [ks Hks].
  eexists _, _. split; [by apply parse_logs_keys with ms|].
  apply finditer_from_count in Hms. apply Forall2_length in Hks.
  assert (∀ l, length (distinct_in_order l) ≤ length l)%nat as Hle.
  { induction l as [|x l IHl]; [done|]. cbn [distinct_in_order length].
    pose proof (length_filter (λ k', k' ≠ x) (distinct_in_order l)). lia. }
  specialize (Hle ks). unfold line_count. lia.
Qed.

(** ** Logs of well-formed lines *)

Lemma distinct_in_order_app a : ∀ b,
  distinct_in_order (a ++ b)
  = distinct_in_order a ++ filter (λ k, k ∉ a) (distinct_in_order b).
Proof.
  induction a as [|x a IH]; intros b; cbn [app distinct_in_order].
  - symmetry. induction (distinct_in_order b) as [|y l IHl]; [done|].
    rewrite filter_cons_True by apply not_elem_of_nil. by rewrite IHl.
  - rewrite IH, filter_app, list_filter_filter. do 2 f_equal.
    apply list_filter_iff. intros k. rewrite not_elem_of_cons. tauto.
Qed.

Lemma distinct_in_order_NoDup ks : NoDup ks → distinct_in_order ks = ks.
Proof.
  induction 1 as [|x l Hx _ IH]; [done|]. cbn [distinct_in_order].
  rewrite IH. f_equal. clear IH.
  induction l as [|y l IHl]; [done|].
  apply not_elem_of_cons in Hx as [Hxy Hx].
  rewrite filter_cons_True by done. by rewrite IHl.
Qed.

Lemma filter_seen_all (r l : list key) :
  (∀ k, k ∈ l → k ∈ r) → filter (λ k, k ∉ r) l = [].
Proof.
  induction l as [|x l IH]; intros H; [done|].
  rewrite filter_cons_False.
  - apply IH. intros k Hk. apply H. by right.
  - intros Hx. apply Hx, H. by left.
Qed.

Lemma log_text_app eol l1 l2 :
  log_text eol (l1 ++ l2) = log_text eol l1 ++ log_text eol l2.
Proof.
  induction l1 as [|ln l1 IH]; [done|]. cbn [app log_text].
  by rewrite IH, <- !app_assoc.
Qed.

(** X5. Two well-formed diagnostics with the same path, line and message, up
    to the whitespace around path and message and whatever their columns
    are, give one report. *)
Theorem same_key_one_report d1 d2 :
  well_formed d1 = true → well_formed d2 = true →
  diag_key d1 = diag_key d2 →
  parse_logs (log_text [LF] [ErrorLine d1; ErrorLine d2])
  = Ok ([diag_key d1], true).
Proof.
  intros H1 H2 Hk.
  pose proof (parse_logs_log [] [ErrorLine d1; ErrorLine d2]) as H.
  change (log_text ([] ++ [LF])) with (log_text [LF]) in H.
  rewrite H; [|cbn [forallb line_ok]; by rewrite H1, H2 | done]. clear H.
  cbn [map concat line_keys app distinct_in_order]. rewrite <- Hk.
  rewrite filter_nil, filter_cons_False by (intros ?; done).
  by rewrite filter_nil.
Qed.

Lemma same_key_one_report_witness :
  parse_logs (str "foo.swift:10:5: error: missing semicolon" ++ [LF]
              ++ str " foo.swift:10:19:  error:  missing semicolon" ++ [LF])
  = Ok ([(str "foo.swift", str "10", str "missing semicolon")], true).
Proof.
  apply (same_key_one_report
    {| d_path := str "foo.swift"; d_line := str "10"; d_col := str "5";
       d_ws1 := str " "; d_ws2 := str " ";
       d_msg := str "missing semicolon" |}
    {| d_path := str " foo.swift"; d_line := str "10"; d_col := str "19";
       d_ws1 := str "  "; d_ws2 := str "  ";
       d_msg := str "missing semicolon" |}); reflexivity.
Defined.

(** X6. A log whose diagnostics have pairwise different keys: every one of
    them is reported, in the order of the log. *)
Theorem distinct_lines_all_reported lns :
  forallb line_ok lns = true →
  bool_decide (NoDup (concat (map line_keys lns))) = true →
  parse_logs (log_text [LF] lns)
  = Ok (concat (map line_keys lns),
        bool_decide (concat (map line_keys lns) ≠ [])).
Proof.
  intros Hlns Hnd%bool_decide_eq_true.
  pose proof (parse_logs_log [] lns Hlns eq_refl) as H.
  change (log_text ([] ++ [LF])) with (log_text [LF]) in H.
  by rewrite H, distinct_in_order_NoDup.
Qed.

Lemma distinct_lines_all_reported_witness :
  parse_logs (str "foo.swift:10:5: error: missing semicolon" ++ [LF]
              ++ str "bar.swift:3:1: warning: unused variable" ++ [LF]
              ++ str "baz.swift:7:2: error: type mismatch" ++ [LF])
  = Ok ([(str "foo.swift", str "10", str "missing semicolon");
         (str "baz.swift", str "7", str "type mismatch")], true).
Proof.
  apply (distinct_lines_all_reported
    [ ErrorLine
        {| d_path := str "foo.swift"; d_line := str "10"; d_col := str "5";
           d_ws1 := str " "; d_ws2 := str " ";
           d_msg := str "missing semicolon" |};
      OtherLine (str "bar.swift") (str "3") (str "1")
        (str " warning: unused variable");
      ErrorLine
        {| d_path := str "baz.swift"; d_line := str "7"; d_col := str "2";
           d_ws1 := str " "; d_ws2 := str " ";
           d_msg := str "type mismatch" |} ]).
  - reflexivity.
  - vm_compute. reflexivity.
Defined.

Lemma parse_logs_log_app l1 l2 :
  forallb line_ok l1 = true → forallb line_ok l2 = true →
  parse_logs (log_text [LF] l1 ++ log_text [LF] l2)
  = Ok (distinct_in_order (concat (map line_keys l1))
        ++ filter (λ k, k ∉ distinct_in_order (concat (map line_keys l1)))
             (distinct_in_order (concat (map line_keys l2))),
        bool_decide (concat (map line_keys l1) ≠ [])
        || bool_decide (concat (map line_keys l2) ≠ [])).
Proof.
  intros H1 H2.
  assert (forallb line_ok (l1 ++ l2) = true) as H12
    by by rewrite forallb_app, H1, H2.
  pose proof (parse_logs_log [] (l1 ++ l2) H12 eq_refl) as E12.
  change (log_text ([] ++ [LF])) with (log_text [LF]) in E12.
  rewrite log_text_app in E12.
  rewrite E12, map_app, concat_app, distinct_in_order_app. f_equal. f_equal.
  - f_equal. apply list_filter_iff. intros k. by rewrite elem_of_distinct.
  - destruct (concat (map line_keys l1)), (concat (map line_keys l2)); done.
Qed.

(** X7. Lines added behind a log never change the reports of the log: the
    reports of both together are those of the first, followed by those of
    the second that the first does not have. *)
Theorem later_lines_keep_reports l1 l2 :
  forallb line_ok l1 = true → forallb line_ok l2 = true →
  ∃ r1 f1 r2 f2,
    parse_logs (log_text [LF] l1) = Ok (r1, f1)
    ∧ parse_logs (log_text [LF] l2) = Ok (r2, f2)
    ∧ parse_logs (log_text [LF] l1 ++ log_text [LF] l2)
      = Ok (r1 ++ filter (λ k, k ∉ r1) r2, f1 || f2).
Proof.
  intros H1 H2.
  pose proof (parse_logs_log [] l1 H1 eq_refl) as E1.
  pose proof (parse_logs_log [] l2 H2 eq_refl) as E2.
  change (log_text ([] ++ [LF])) with (log_text [LF]) in E1, E2.
  eexists _, _, _, _. split; [exact E1|]. split; [exact E2|].
  by apply parse_logs_log_app.
Qed.

Lemma later_lines_keep_reports_witness :
  ∃ r1 f1 r2 f2,
    parse_logs (str "a.swift:1:1: error: x" ++ [LF]) = Ok (r1, f1)
    ∧ parse_logs (str "a.swift:1:7: error: x" ++ [LF]
                  ++ str "b.swift:2:2: error: y" ++ [LF]) = Ok (r2, f2)
    ∧ parse_logs ((str "a.swift:1:1: error: x" ++ [LF])
                  ++ str "a.swift:1:7: error: x" ++ [LF]
                  ++ str "b.swift:2:2: error: y" ++ [LF])
      = Ok (r1 ++ filter (λ k, k ∉ r1) r2, f1 || f2).
Proof.
  apply (later_lines_keep_reports
    [ ErrorLine {| d_path := str "a.swift"; d_line := str "1";
                   d_col := str "1"; d_ws1 := str " "; d_ws2 := str " ";
                   d_msg := str "x" |} ]
    [ ErrorLine {| d_path := str "a.swift"; d_line := str "1";
                   d_col := str "7"; d_ws1 := str " "; d_ws2 := str " ";
                   d_msg := str "x" |};
      ErrorLine {| d_path := str "b.swift"; d_line := str "2";
                   d_col := str "2"; d_ws1 := str " "; d_ws2 := str " ";
                   d_msg := str "y" |} ]); reflexivity.
Defined.

(** X8. A log read twice in a row gives the reports of the log read
    once. *)
Theorem repeated_log_same_reports lns :
  forallb line_ok lns = true →
  parse_logs (log_text [LF] lns ++ log_text [LF] lns)
  = parse_logs (log_text [LF] lns).
Proof.
  intros H. rewrite (parse_logs_log_app lns lns H H).
  pose proof (parse_logs_log [] lns H eq_refl) as E.
  change (log_text ([] ++ [LF])) with (log_text [LF]) in E. rewrite E.
  rewrite filter_seen_all by done. by rewrite app_nil_r, orb_diag.
Qed.

Lemma repeated_log_same_reports_witness :
  parse_logs ((str "a.swift:1:1: error: x" ++ [LF]
               ++ str "b.swift:2:2: error: y" ++ [LF])
              ++ str "a.swift:1:1: error: x" ++ [LF]
              ++ str "b.swift:2:2: error: y" ++ [LF])
  = parse_logs (str "a.swift:1:1: error: x" ++ [LF]
                ++ str "b.swift:2:2: error: y" ++ [LF]).
Proof.
  apply (repeated_log_same_reports
    [ ErrorLine {| d_path := str "a.swift"; d_line := str "1";
                   d_col := str "1"; d_ws1 := str " "; d_ws2 := str " ";
                   d_msg := str "x" |};
      ErrorLine {| d_path := str "b.swift"; d_line := str "2";
                   d_col := str "2"; d_ws1 := str " "; d_ws2 := str " ";
                   d_msg := str "y" |} ]); reflexivity.
Defined.

(** X9. Whitespace between a message and the end of its line plays no part:
    a log whose lines end with blanks before the line feed has the reports
    of the log without them. *)
Theorem trailing_whitespace_ignored pad lns :
  forallb line_ok lns = true → blanks pad = true →
  parse_logs (log_text (pad ++ [LF]) lns) = parse_logs (log_text [LF] lns).
Proof.
  intros Hlns Hpad. rewrite (parse_logs_log pad lns Hlns Hpad).
  symmetry. exact (parse_logs_log [] lns Hlns eq_refl).
Qed.

Lemma trailing_whitespace_ignored_witness :
  parse_logs (str "a.swift:1:1: error: x" ++ [9; 32; LF]
              ++ str "b.swift:2:2: error: y" ++ [9; 32; LF])
  = parse_logs (str "a.swift:1:1: error: x" ++ [LF]
                ++ str "b.swift:2:2: error: y" ++ [LF]).
Proof.
  apply (trailing_whitespace_ignored [9; 32]
    [ ErrorLine {| d_path := str "a.swift"; d_line := str "1";
                   d_col := str "1"; d_ws1 := str " "; d_ws2 := str " ";
                   d_msg := str "x" |};
      ErrorLine {| d_path := str "b.swift"; d_line := str "2";
                   d_col := str "2"; d_ws1 := str " "; d_ws2 := str " ";
                   d_msg := str "y" |} ]); reflexivity.
Defined.

(** ** The text without [error:] *)

Lemma occurs_unfold p s :
  occurs p s = starts_with p s
               || match s with
                  | [] => false
                  | _ :: s' => occurs p s'
                  end.
Proof. by destruct s. Qed.

Lemma occurs_app p a : ∀ b, occurs p (a ++ p ++ b) = true.
Proof.
  induction a as [|c a IH]; intros b.
  - rewrite occurs_unfold. change ([] ++ p ++ b) with (p ++ b).
    by rewrite starts_with_app.
  - cbn [app occurs]. rewrite IH. apply orb_true_r.
Qed.

(** X10. A text in which [error:] does not occur has no report: the flag is
    false and the output is the line that says so. *)
Theorem no_error_token_no_report (log_content : text) :
  occurs (str "error:") log_content = false →
  parse_logs log_content = Ok ([], false)
  ∧ stdout log_content = Ok [no_errors_line].
Proof.
  intros Hocc.
  assert (finditer pattern log_content = Ok []) as Hms.
  { unfold finditer. rewrite finditer_from_S.
    destruct (search pattern true log_content) as [[[g b'] s']|] eqn:E;
      [|done].
    exfalso. apply search_sound in E as (pre & mid & -> & E).
    apply pattern_inv in E as (_ & _ & g1 & g2 & g3 & w1 & w2 & g4 & _ & _
      & _ & _ & _ & _ & _ & -> & _).
    assert (pre ++ g1 ++ [COLON] ++ g2 ++ [COLON] ++ g3 ++ [COLON] ++ w1
              ++ str "error:" ++ w2 ++ g4 ++ s'
            = (pre ++ g1 ++ [COLON] ++ g2 ++ [COLON] ++ g3 ++ [COLON] ++ w1)
              ++ str "error:" ++ (w2 ++ g4 ++ s')) as Heq
      by by rewrite <- !app_assoc.
    by rewrite Heq, occurs_app in Hocc. }
  pose proof (parse_logs_keys log_content [] [] Hms ltac:(constructor)) as H.
  split; [exact H|]. unfold stdout. by rewrite H.
Qed.

Lemma no_error_token_no_report_witness :
  parse_logs (str "note: build succeeded" ++ [LF]
              ++ str "a.swift:3:1: warning: unused variable" ++ [LF])
  = Ok ([], false)
  ∧ stdout (str "note: build succeeded" ++ [LF]
            ++ str "a.swift:3:1: warning: unused variable" ++ [LF])
    = Ok [no_errors_line].
Proof.
  apply (no_error_token_no_report
           (str "note: build succeeded" ++ [LF]
            ++ str "a.swift:3:1: warning: unused variable" ++ [LF])).
  reflexivity.
Defined.

(** ** The output *)

Lemma parse_logs_result (log_content : text) :
  ∃ reports found,
    parse_logs log_content = Ok (reports, found)
    ∧ (found = true ↔ reports ≠ [])
    ∧ NoDup reports
    ∧ Forall (λ k, COLON ∉ key_path k) reports.
Proof.
  destruct (finditer_from_total (S (length log_content)) true log_content)
    as (ms & Hms & Hlen); [lia|].
  destruct (keyed_total ms Hlen) as [ks Hks].
  pose proof (finditer_from_sound _ _ _ _ Hms) as Hok.
  eexists _, _. split; [by apply parse_logs_keys with ms|].
  split; [rewrite bool_decide_eq_true; by destruct ks|].
  split; [apply NoDup_distinct|].
  apply Forall_forall. intros k Hk. rewrite elem_of_distinct in Hk.
  pose proof (keys_fields ms ks Hok Hks) as Hf.
  rewrite Forall_forall in Hf. by destruct (Hf k Hk) as (? & _).
Qed.

Lemma report_lines_length (rs : list key) :
  length (concat (map report_lines rs)) = (3 * length rs)%nat.
Proof.
  induction rs as [|[[p l] m] rs IH]; [done|].
  cbn [map concat]. rewrite length_app, IH. simpl. lia.
Qed.

Lemma no_errors_line_not_report (rs : list key) :
  no_errors_line ∉ concat (map report_lines rs).
Proof.
  induction rs as [|[[p l] m] rs IH]; [apply not_elem_of_nil|].
  cbn [map concat]. rewrite elem_of_app. intros [H|H]; [|done].
  unfold report_lines in H.
  apply elem_of_cons in H as [H|H]; [done|].
  apply elem_of_cons in H as [H|H]; [done|].
  apply list_elem_of_singleton in H. done.
Qed.

(** The [print] calls of a run: three for every report and, exactly when
    there is no report, the one that says no error was found, whose
    argument is that of no other call. *)
Theorem output_shape (log_content : text) :
  ∃ reports found lines,
    parse_logs log_content = Ok (reports, found)
    ∧ stdout log_content = Ok lines
    ∧ length lines = (3 * length reports + (if found then 0 else 1))%nat
    ∧ (no_errors_line ∈ lines ↔ reports = [])
    ∧ lines ≠ [].
Proof.
  destruct (parse_logs_result log_content) as (rs & found & H & Hf & _ & _).
  eexists rs, found, _. split; [done|]. unfold stdout. rewrite H.
  cbn [mbind result_bind fst snd]. split; [done|].
  rewrite length_app, report_lines_length, elem_of_app.
  pose proof (no_errors_line_not_report rs) as Hno.
  destruct found.
  - assert (rs ≠ []) as Hne by by apply Hf.
    split; [simpl; lia|]. split.
    + split; [|done]. intros [?|?%not_elem_of_nil]; done.
    + destruct rs as [|[[p l] m] rs]; done.
  - assert (rs = []) as ->.
    { destruct rs as [|k rs]; [done|]. destruct Hf as [_ Hf].
      by specialize (Hf ltac:(done)). }
    split; [done|]. split; [|done].
    split; [done|]. intros _. right. apply list_elem_of_singleton. done.
Qed.

Lemma colon_free_run (p : text) :
  COLON ∉ p → Forall (λ c, cclass_in (NotChar COLON) c = true) p.
Proof.
  intros H. apply Forall_forall. intros x Hx. simpl.
  destruct (N.eqb_spec x COLON) as [->|]; done.
Qed.

Lemma report_lines_inj k1 k2 :
  COLON ∉ key_path k1 → COLON ∉ key_path k2 →
  report_lines k1 = report_lines k2 → k1 = k2.
Proof.
  destruct k1 as [[p1 l1] m1], k2 as [[p2 l2] m2]. cbn.
  intros H1%colon_free_run H2%colon_free_run [= E ->].
  by destruct (span_unique (cclass_in (NotChar COLON)) p1 p2 COLON COLON
                 l1 l2 H1 H2 eq_refl eq_refl E) as [-> [= ->]].
Qed.

(** X12. No two blocks of the output are the same: the three lines of a report
    determine its path, line and message, and no report is printed
    twice. *)
Theorem printed_blocks_distinct (log_content : text) :
  ∃ reports found,
    parse_logs log_content = Ok (reports, found)
    ∧ ∀ i j k1 k2,
        reports !! i = Some k1 → reports !! j = Some k2 →
        report_lines k1 = report_lines k2 → i = j.
Proof.
  destruct (parse_logs_result log_content) as (rs & found & H & _ & Hnd & Hc).
  exists rs, found. split; [done|]. intros i j k1 k2 Hi Hj E.
  rewrite Forall_forall in Hc.
  assert (k1 = k2) as ->.
  { apply report_lines_inj; [| |done].
    - apply Hc. by eapply list_elem_of_lookup_2.
    - apply Hc. by eapply list_elem_of_lookup_2. }
  by eapply NoDup_lookup.
Qed.

(** ** The text written *)

Lemma line_feeds_none (t : list char) : LF ∉ t → line_feeds t = 0%nat.
Proof.
  intros H. unfold line_feeds.
  destruct (filter (λ c, c = LF) t) as [|x l] eqn:E; [done|].
  assert (x ∈ filter (λ c, c = LF) t) as Hx by (rewrite E; left).
  apply list_elem_of_filter in Hx as [-> Hx]. done.
Qed.

Lemma line_feeds_cons c (t : list char) :
  line_feeds (c :: t) = ((if (c =? LF)%N then 1 else 0) + line_feeds t)%nat.
Proof.
  unfold line_feeds. destruct (N.eqb_spec c LF) as [->|Hc].
  - by rewrite filter_cons_True.
  - by rewrite filter_cons_False.
Qed.

Lemma written_app a b : written (a ++ b) = written a ++ written b.
Proof. unfold written. by rewrite map_app, concat_app. Qed.

(** The block of a report takes three lines and one more for every line
    feed its path holds. *)
Lemma line_feeds_block k :
  run Digit (key_line k) → LF ∉ key_msg k →
  line_feeds (written (report_lines k))
  = (3 + line_feeds (key_path k))%nat.
Proof.
  destruct k as [[p l] m]. cbn [key_line key_msg key_path fst snd].
  intros Hl Hm.
  assert (LF ∉ l) as Hl' by by apply (run_excludes Digit).
  unfold written, report_lines. cbn [map concat].
  assert (line_feeds (repeat 45 40) = 0%nat) as Hsep by by vm_compute.
  rewrite !line_feeds_app, Hsep. rewrite !line_feeds_cons.
  rewrite (line_feeds_none l), (line_feeds_none m) by done.
  change (line_feeds []) with 0%nat. simpl. lia.
Qed.

Lemma parse_logs_fields (log_content : text) :
  ∃ reports found,
    parse_logs log_content = Ok (reports, found)
    ∧ (found = true ↔ reports ≠ [])
    ∧ Forall (λ k, run Digit (key_line k) ∧ (LF ∉ key_msg k)) reports.
Proof.
  destruct (finditer_from_total (S (length log_content)) true log_content)
    as (ms & Hms & Hlen); [lia|].
  destruct (keyed_total ms Hlen) as [ks Hks].
  pose proof (finditer_from_sound _ _ _ _ Hms) as Hok.
  eexists _, _. split; [by apply parse_logs_keys with ms|].
  split; [rewrite bool_decide_eq_true; by destruct ks|].
  apply Forall_forall. intros k Hk. rewrite elem_of_distinct in Hk.
  pose proof (keys_fields ms ks Hok Hks) as Hf.
  rewrite Forall_forall in Hf. by destruct (Hf k Hk) as (_ & ? & ?).
Qed.

(** X11. The text written has, for every report, three lines and one more
    for every line feed in the path of the report, and one last line
    exactly when there is no report; in that case it is the line that says
    no error was found, and nothing else. Every line written ends with a
    line feed, so the lines are counted by the line feeds. *)
Theorem written_line_count (log_content : text) :
  ∃ reports found out,
    parse_logs log_content = Ok (reports, found)
    ∧ output log_content = Ok out
    ∧ line_feeds out
      = (3 * length reports
         + sum_list (map (λ k, line_feeds (key_path k)) reports)
         + (if found then 0 else 1))%nat
    ∧ (reports = [] → out = no_errors_line ++ [LF]).
Proof.
  destruct (parse_logs_fields log_content) as (rs & found & H & Hf & Hk).
  eexists rs, found, _. split; [done|]. unfold output, stdout. rewrite H.
  cbn [mbind result_bind fst snd]. split; [done|]. split.
  - rewrite written_app, line_feeds_app.
    assert (line_feeds (written (if found then [] else [no_errors_line]))
            = if found then 0%nat else 1%nat) as ->.
    { destruct found; [done|]. by vm_compute. }
    f_equal. clear H Hf.
    induction Hk as [|k rs [Hl Hm] _ IH]; [done|].
    cbn [map concat sum_list length]. rewrite written_app, line_feeds_app.
    rewrite line_feeds_block, IH by done. unfold id. lia.
  - intros ->. destruct found; [|done]. by destruct Hf as [[] _].
Qed.

(** * The claims the code does not keep *)

(** C1: the code on two lines that differ in the column only. With no
    other line between them they give one report; when each comes behind a
    line without colon, that line is taken into the path ([[^:]] takes the
    line feed), the keys differ, and both are reported. *)
Theorem column_variants_reported_twice :
  parse_logs (str "foo.swift:10:5: error: m" ++ [LF]
              ++ str "foo.swift:10:9: error: m" ++ [LF])
  = Ok ([(str "foo.swift", str "10", str "m")], true)
  ∧ parse_logs (str "Compiling A" ++ [LF]
                ++ str "foo.swift:10:5: error: m" ++ [LF]
                ++ str "Compiling B" ++ [LF]
                ++ str "foo.swift:10:9: error: m" ++ [LF])
    = Ok ([(str "Compiling A" ++ [LF] ++ str "foo.swift", str "10", str "m");
           (str "Compiling B" ++ [LF] ++ str "foo.swift", str "10", str "m")],
          true).
Proof. split; vm_compute; reflexivity. Qed.

(** C6: the code on a text none of whose lines is a diagnostic. Neither
    [a.swift:1:2:] nor [error: msg] matches, alone or as a line of a text;
    put on two lines they are matched as one diagnostic ([\s] takes the
    line feed), a report is printed and the flag is true. *)
Theorem lines_without_match_reported :
  match_items pattern [] true (str "a.swift:1:2:") = None
  ∧ match_items pattern [] true (str "error: msg") = None
  ∧ parse_logs (str "a.swift:1:2:") = Ok ([], false)
  ∧ parse_logs (str "error: msg") = Ok ([], false)
  ∧ parse_logs (str "a.swift:1:2:" ++ [LF] ++ str "error: msg")
    = Ok ([(str "a.swift", str "1", str "msg")], true)
  ∧ stdout (str "a.swift:1:2:" ++ [LF] ++ str "error: msg")
    = Ok (report_lines (str "a.swift", str "1", str "msg")).
Proof. repeat split; vm_compute; reflexivity. Qed.

(** C10: the code on a text and on the same text with carriage returns.
    The line feed inside a path that spans two lines comes back in the
    report with its carriage return; and a message that is blank is
    reported only with a carriage return to capture. *)
Theorem carriage_return_changes_reports :
  parse_logs (str "x" ++ [LF] ++ str "y:1:2: error: m")
  = Ok ([(str "x" ++ [LF] ++ str "y", str "1", str "m")], true)
  ∧ parse_logs (crlf (str "x" ++ [LF] ++ str "y:1:2: error: m"))
    = Ok ([(str "x" ++ [CR; LF] ++ str "y", str "1", str "m")], true)
  ∧ parse_logs (str "a:1:2: error: " ++ [LF]) = Ok ([], false)
  ∧ parse_logs (crlf (str "a:1:2: error: " ++ [LF]))
    = Ok ([(str "a", str "1", [])], true).
Proof. repeat split; vm_compute; reflexivity. Qed.
